(** * CRM task scheduling: tasks, sequence encodings and environment reset

    A shallow embedding of the parts of the Python package that the
    specification's claims are about:

    - [tasks],
      [tasks64]      : [task_scheduling/tasks.py], the [ReluDrop] task, its
                       loss function, property setters and [shift_origin];
    - [environments] : [task_scheduling/mdp/environments.py], [Base.reset]
                       and the factorial-base encodings [seq_to_int] and
                       [int_to_seq];
    - [env_tasking]  : [Py/task_scheduling/env_tasking.py],
                       [BaseTaskingEnv.reset];
    - [scheduling_problems] :
                       [Py/task_scheduling/generators/scheduling_problems.py],
                       [PermutedTasks._gen_solution], [Dataset] and [Queue];
    - [environments_Index] : the sorted indices, the action mask and
                       [opt_action] of [environments.py].

    Numbers.  A Python [int] is a [Z].  A Python [float] has two models.
    In [tasks64] it is a binary64 float, with the rounding, the infinities
    and the [nan] of the machine: this is the model for everything that a
    comparison of computed values decides (the loss function at its
    thresholds, the check of the setters, [shift_origin]).  In [tasks] it is a
    [pyfloat]: either [NaN] or a finite value carried as an exact rational;
    it serves the statements that do not turn on rounding (what a method
    leaves alone, bounds that rounding keeps, the order of a queue). *)

From Stdlib Require Import QArith Lqa ZArith Lia Bool String Floats.
From stdpp Require Import base list gmap.

(** ** Python values and exceptions *)

Inductive pyfloat : Type :=
| NaN
| Fin (q : Q).

Definition fadd (a b : pyfloat) : pyfloat :=
  match a, b with Fin x, Fin y => Fin (x + y) | _, _ => NaN end.

Definition fsub (a b : pyfloat) : pyfloat :=
  match a, b with Fin x, Fin y => Fin (x - y) | _, _ => NaN end.

Definition fmul (a b : pyfloat) : pyfloat :=
  match a, b with Fin x, Fin y => Fin (x * y) | _, _ => NaN end.

Definition fneg (a : pyfloat) : pyfloat :=
  match a with Fin x => Fin (- x) | NaN => NaN end.

(** [a < b], [a >= b] and [a == b] on floats: false as soon as one side is
    [nan]. *)
Definition flt (a b : pyfloat) : bool :=
  match a, b with Fin x, Fin y => negb (Qle_bool y x) | _, _ => false end.

Definition fge (a b : pyfloat) : bool :=
  match a, b with Fin x, Fin y => Qle_bool y x | _, _ => false end.

Definition feqb (a b : pyfloat) : bool :=
  match a, b with Fin x, Fin y => Qeq_bool x y | _, _ => false end.

(** The builtin [max(a, b)]: keeps [a] unless [b > a]. *)
Definition pymax (a b : pyfloat) : pyfloat :=
  if flt a b then b else a.

Inductive exn : Type :=
| ValueError
| IndexError.

Inductive result (A : Type) : Type :=
| Ok (a : A)
| Raise (e : exn).
Arguments Ok {A} a.
Arguments Raise {A} e.

(** ** [task_scheduling/tasks.py] *)

Module tasks.

(** The attributes of a [ReluDrop] object: [duration], [t_release] and
    [_name] come from [Base.__init__], the three private ones from
    [ReluDrop.__init__]. *)
Record ReluDrop : Type := mkReluDrop {
  duration : pyfloat;
  t_release : pyfloat;
  _name : option string;
  _slope : pyfloat;
  _t_drop : pyfloat;
  _l_drop : pyfloat
}.

Definition param_names : list string :=
  ["duration"; "t_release"; "slope"; "t_drop"; "l_drop"]%string.
Definition shift_params : list string :=
  ["t_release"; "t_drop"; "l_drop"]%string.

(** Methods run on the object they are called on and may raise: a
    computation takes the object and returns its outcome together with the
    object as the call left it (also when it raised). *)
Definition M (A : Type) : Type := ReluDrop -> result A * ReluDrop.

Definition ret {A} (a : A) : M A := fun self => (Ok a, self).
Definition raise {A} (e : exn) : M A := fun self => (Raise e, self).
Definition bind {A B} (m : M A) (k : A -> M B) : M B :=
  fun self =>
    match m self with
    | (Ok a, self') => k a self'
    | (Raise e, self') => (Raise e, self')
    end.
Definition get : M ReluDrop := fun self => (Ok self, self).
Definition put (self' : ReluDrop) : M unit := fun _ => (Ok tt, self').

Declare Scope pym_scope.
Delimit Scope pym_scope with pym.
Notation "x <- m ;; k" := (bind m (fun x => k))
  (at level 100, m at next level, right associativity) : pym_scope.
Notation "m ;; k" := (bind m (fun _ => k))
  (at level 100, right associativity) : pym_scope.
Local Open Scope pym_scope.

(** [Base.__init__(duration, t_release, name=None)]. *)
Definition Base_init (duration t_release : pyfloat) (name : option string)
  : pyfloat * pyfloat * option string :=
  (duration, t_release, name).

(** [ReluDrop.__init__]: [super().__init__(duration, t_release)] is called
    without the name, and the three private attributes are written
    directly; nothing is compared and nothing raises. *)
Definition ReluDrop_init (duration t_release slope t_drop l_drop : pyfloat)
    (name : option string) : result ReluDrop :=
  let '(d, r, nm) := Base_init duration t_release None in
  Ok {| duration := d; t_release := r; _name := nm;
        _slope := slope; _t_drop := t_drop; _l_drop := l_drop |}.

(** Property getters. *)
Definition slope (self : ReluDrop) : pyfloat := _slope self.
Definition t_drop (self : ReluDrop) : pyfloat := _t_drop self.
Definition l_drop (self : ReluDrop) : pyfloat := _l_drop self.

(** The tolerance [1e-9] of [__call__]. *)
Definition eps : Q := 1 # 1000000000.

(** [ReluDrop.__call__(t)] for a scalar [t]: the two masked assignments
    are applied in the order of the source. *)
Definition call (self : ReluDrop) (t : pyfloat) : pyfloat :=
  let t := fsub t (t_release self) in
  let loss := fmul (slope self) t in
  let loss := if flt t (fneg (Fin eps)) then NaN else loss in
  let loss := if fge t (t_drop self) then l_drop self else loss in
  loss.

(** [_check_non_decreasing(slope, t_drop, l_drop)]. *)
Definition _check_non_decreasing (slope t_drop l_drop : pyfloat) : M unit :=
  if flt l_drop (fmul slope t_drop) then raise ValueError else ret tt.

Definition set_t_release (v : pyfloat) : M unit :=
  fun self =>
    (Ok tt, {| duration := duration self; t_release := v; _name := _name self;
               _slope := _slope self; _t_drop := _t_drop self;
               _l_drop := _l_drop self |}).

Definition set__slope (v : pyfloat) : M unit :=
  fun self =>
    (Ok tt, {| duration := duration self; t_release := t_release self;
               _name := _name self;
               _slope := v; _t_drop := _t_drop self; _l_drop := _l_drop self |}).

Definition set__t_drop (v : pyfloat) : M unit :=
  fun self =>
    (Ok tt, {| duration := duration self; t_release := t_release self;
               _name := _name self;
               _slope := _slope self; _t_drop := v; _l_drop := _l_drop self |}).

Definition set__l_drop (v : pyfloat) : M unit :=
  fun self =>
    (Ok tt, {| duration := duration self; t_release := t_release self;
               _name := _name self;
               _slope := _slope self; _t_drop := _t_drop self; _l_drop := v |}).

(** Property setters: the check runs first, on the other two attributes as
    they are, and the attribute is written only if it passed. *)
Definition slope_setter (v : pyfloat) : M unit :=
  self <- get ;;
  _check_non_decreasing v (t_drop self) (l_drop self) ;;
  set__slope v.

Definition t_drop_setter (v : pyfloat) : M unit :=
  self <- get ;;
  _check_non_decreasing (slope self) v (l_drop self) ;;
  set__t_drop v.

Definition l_drop_setter (v : pyfloat) : M unit :=
  self <- get ;;
  _check_non_decreasing (slope self) (t_drop self) v ;;
  set__l_drop v.

(** [ReluDrop.shift_origin(t)]. *)
Definition shift_origin (t : pyfloat) : M pyfloat :=
  self <- get ;;
  let t_excess := fsub t (t_release self) in
  set_t_release (pymax (Fin 0) (fneg t_excess)) ;;
  self <- get ;;
  if feqb (t_release self) (Fin 0) then
    let loss_inc := call self t_excess in
    self <- get ;;
    t_drop_setter (pymax (Fin 0) (fsub (t_drop self) t_excess)) ;;
    self <- get ;;
    l_drop_setter (fsub (l_drop self) loss_inc) ;;
    ret loss_inc
  else
    ret (Fin 0).

(** A task whose five parameters are finite numbers. *)
Definition task (name : option string) (d r s td ld : Q) : ReluDrop :=
  {| duration := Fin d; t_release := Fin r; _name := name;
     _slope := Fin s; _t_drop := Fin td; _l_drop := Fin ld |}.

End tasks.

(** ** [task_scheduling/tasks.py] on binary64 floats *)

Module tasks64.
Local Open Scope float_scope.

(** The attributes of a [ReluDrop] object, each number a binary64 float. *)
Record ReluDrop : Type := mkReluDrop {
  duration : float;
  t_release : float;
  _name : option string;
  _slope : float;
  _t_drop : float;
  _l_drop : float
}.

(** A method takes the object and returns its outcome with the object as
    the call left it, also when it raised. *)
Definition M (A : Type) : Type := ReluDrop -> result A * ReluDrop.

Definition ret {A} (a : A) : M A := fun self => (Ok a, self).
Definition raise {A} (e : exn) : M A := fun self => (Raise e, self).
Definition bind {A B} (m : M A) (k : A -> M B) : M B :=
  fun self =>
    match m self with
    | (Ok a, self') => k a self'
    | (Raise e, self') => (Raise e, self')
    end.
Definition get : M ReluDrop := fun self => (Ok self, self).

Declare Scope pym64_scope.
Delimit Scope pym64_scope with pym64.
Notation "x <- m ;; k" := (bind m (fun x => k))
  (at level 100, m at next level, right associativity) : pym64_scope.
Notation "m ;; k" := (bind m (fun _ => k))
  (at level 100, right associativity) : pym64_scope.
Local Open Scope pym64_scope.

(** The builtin [max(a, b)]: keeps [a] unless [b > a]. *)
Definition pymax (a b : float) : float := if a <? b then b else a.

(** Property getters. *)
Definition slope (self : ReluDrop) : float := _slope self.
Definition t_drop (self : ReluDrop) : float := _t_drop self.
Definition l_drop (self : ReluDrop) : float := _l_drop self.

(** The literal [1e-9]: the double nearest to it. *)
Definition eps : float := 0x1.12e0be826d695p-30.

(** [ReluDrop.__call__(t)] for a scalar [t]: the relative time and the
    product are rounded, and the two masked assignments are applied in the
    order of the source. *)
Definition call (self : ReluDrop) (t : float) : float :=
  let t := t - t_release self in
  let loss := slope self * t in
  let loss := if t <? - eps then nan else loss in
  let loss := if t_drop self <=? t then l_drop self else loss in
  loss.

(** [_check_non_decreasing(slope, t_drop, l_drop)]: [l_drop] is compared
    with the rounded product. *)
Definition _check_non_decreasing (slope t_drop l_drop : float) : M unit :=
  if l_drop <? slope * t_drop then raise ValueError else ret tt.

Definition set_t_release (v : float) : M unit :=
  fun self =>
    (Ok tt, {| duration := duration self; t_release := v; _name := _name self;
               _slope := _slope self; _t_drop := _t_drop self;
               _l_drop := _l_drop self |}).

Definition set__slope (v : float) : M unit :=
  fun self =>
    (Ok tt, {| duration := duration self; t_release := t_release self;
               _name := _name self;
               _slope := v; _t_drop := _t_drop self; _l_drop := _l_drop self |}).

Definition set__t_drop (v : float) : M unit :=
  fun self =>
    (Ok tt, {| duration := duration self; t_release := t_release self;
               _name := _name self;
               _slope := _slope self; _t_drop := v; _l_drop := _l_drop self |}).

Definition set__l_drop (v : float) : M unit :=
  fun self =>
    (Ok tt, {| duration := duration self; t_release := t_release self;
               _name := _name self;
               _slope := _slope self; _t_drop := _t_drop self; _l_drop := v |}).

(** Property setters: the check first, the assignment if it passed. *)
Definition slope_setter (v : float) : M unit :=
  self <- get ;;
  _check_non_decreasing v (t_drop self) (l_drop self) ;;
  set__slope v.

Definition t_drop_setter (v : float) : M unit :=
  self <- get ;;
  _check_non_decreasing (slope self) v (l_drop self) ;;
  set__t_drop v.

Definition l_drop_setter (v : float) : M unit :=
  self <- get ;;
  _check_non_decreasing (slope self) (t_drop self) v ;;
  set__l_drop v.

(** [ReluDrop.shift_origin(t)]. *)
Definition shift_origin (t : float) : M float :=
  self <- get ;;
  let t_excess := t - t_release self in
  set_t_release (pymax 0 (- t_excess)) ;;
  self <- get ;;
  if t_release self =? 0 then
    let loss_inc := call self t_excess in
    self <- get ;;
    t_drop_setter (pymax 0 (t_drop self - t_excess)) ;;
    self <- get ;;
    l_drop_setter (l_drop self - loss_inc) ;;
    ret loss_inc
  else
    ret 0.

(** The task with the five parameters given. *)
Definition task (name : option string) (d r s td ld : float) : ReluDrop :=
  {| duration := d; t_release := r; _name := name;
     _slope := s; _t_drop := td; _l_drop := ld |}.

End tasks64.

(** ** The exception monad of plain functions *)

#[global] Instance result_ret : MRet result := fun _ a => Ok a.
#[global] Instance result_bind : MBind result :=
  fun _ _ k m => match m with Ok a => k a | Raise e => Raise e end.

(** ** [task_scheduling/mdp/environments.py] *)

Module environments.

(** *** Builtins used by the two encodings *)

(** [list(range(n))]; empty for [n <= 0]. *)
Definition range (n : Z) : list Z := Z.of_nat <$> seq 0 (Z.to_nat n).

(** [math.factorial(n)]: [ValueError] on a negative argument. *)
Definition factorial (n : Z) : result Z :=
  if (n <? 0)%Z then Raise ValueError else Ok (Z.of_nat (fact (Z.to_nat n))).

(** [l.index(x)]: position of the first occurrence, [ValueError] if there
    is none. *)
Fixpoint list_index (x : Z) (l : list Z) : result Z :=
  match l with
  | [] => Raise ValueError
  | y :: l' =>
      if bool_decide (y = x) then Ok 0%Z
      else k ← list_index x l'; Ok (k + 1)%Z
  end.

(** [l.remove(x)]: the list without the first occurrence of [x],
    [ValueError] if there is none. *)
Fixpoint list_remove (x : Z) (l : list Z) : result (list Z) :=
  match l with
  | [] => Raise ValueError
  | y :: l' =>
      if bool_decide (y = x) then Ok l'
      else r ← list_remove x l'; Ok (y :: r)
  end.

(** [l.pop(i)]: a negative index counts from the end, [IndexError] out of
    range; returns the element and the list left. *)
Definition list_pop (i : Z) (l : list Z) : result (Z * list Z) :=
  let n := Z.of_nat (length l) in
  let j := if (i <? 0)%Z then (i + n)%Z else i in
  if (0 <=? j)%Z && (j <? n)%Z then
    match l !! Z.to_nat j with
    | Some x => Ok (x, delete (Z.to_nat j) l)
    | None => Raise IndexError
    end
  else Raise IndexError.

(** *** [seq_to_int] *)

(** The body of [for i, n in enumerate(seq)], from index [i] on. *)
Fixpoint seq_to_int_loop (length : Z) (i : Z) (seq seq_rem : list Z) (num : Z)
  : result Z :=
  match seq with
  | [] => Ok num
  | n :: seq' =>
      k ← list_index n seq_rem;
      f ← factorial (length - 1 - i);
      let num := (num + k * f)%Z in
      seq_rem ← list_remove n seq_rem;
      seq_to_int_loop length (i + 1) seq' seq_rem num
  end.

Definition seq_to_int (seq : list Z) (check_input : bool) : result Z :=
  let length := Z.of_nat (List.length seq) in
  let seq_rem := range length in
  if check_input
     && bool_decide ((list_to_set seq : gset Z) ≠ list_to_set seq_rem)
  then Raise ValueError
  else seq_to_int_loop length 0 seq seq_rem 0.

(** *** [int_to_seq] *)

(** The [while len(seq_rem) > 0] loop, unfolded at most [fuel] times;
    [None] when the fuel is used up with the loop still running. *)
Fixpoint int_to_seq_loop (fuel : nat) (seq_rem seq : list Z) (num : Z)
  : option (result (list Z)) :=
  if (0 <? Z.of_nat (List.length seq_rem))%Z then
    match fuel with
    | O => None
    | S fuel =>
        match factorial (Z.of_nat (List.length seq_rem) - 1) with
        | Raise e => Some (Raise e)
        | Ok radix =>
            let i := (num `div` radix)%Z in
            let num := (num `mod` radix)%Z in
            match list_pop i seq_rem with
            | Raise e => Some (Raise e)
            | Ok (n, seq_rem) => int_to_seq_loop fuel seq_rem (seq ++ [n]) num
            end
        end
    end
  else Some (Ok seq).

(** [num not in range(factorial(length))], with the call of [factorial]
    that may raise. *)
Definition not_in_range_factorial (num length : Z) : result bool :=
  f ← factorial length; Ok (negb ((0 <=? num)%Z && (num <? f)%Z)).

(** Each turn of the loop pops one element, so [len(range(length))] turns
    are enough fuel (lemma [int_to_seq_loop_total] below). *)
Definition int_to_seq (num length : Z) (check_input : bool)
  : option (result (list Z)) :=
  match (if check_input then not_in_range_factorial num length
         else Ok false) with
  | Raise e => Some (Raise e)
  | Ok true => Some (Raise ValueError)
  | Ok false =>
      let seq_rem := range length in
      int_to_seq_loop (List.length seq_rem) seq_rem [] num
  end.

(** *** [Base.reset] *)

Section Base.
(** Code that is not part of the files at hand is taken as parameters:
    the task objects, the nodes of [tree_search], the problem generator
    (with its own state), observations and the spaces that subclasses
    keep up to date. *)
Context {Task Node Obs Rng Gen Spaces : Type}.

Record Env : Type := mkEnv {
  n_tasks : nat;
  n_ch : nat;
  time_shift : bool;
  problem_gen_state : Gen;
  node : option Node;
  _tasks_init : option (list Task);
  _ch_avail_init : option (list pyfloat);
  _seq_opt : option (list nat);
  _loss_agg : option pyfloat;
  spaces : Spaces
}.

(** [list(self.problem_gen(1, solve=solve, rng=rng))[0]]: one problem
    and, with [solve], the argsort of the times of its solution. *)
Variable problem_gen :
  bool -> option Rng -> Gen ->
  result (list Task * list pyfloat * option (list nat)) * Gen.
Variable ScheduleNode : list Task -> list pyfloat -> result Node.
Variable ScheduleNodeShift : list Task -> list pyfloat -> result Node.
Variable node_loss : Node -> pyfloat.
Variable _update_spaces : Env -> Env.
Variable obs : Env -> Obs.

Definition set_problem_gen_state (g : Gen) (self : Env) : Env :=
  mkEnv (n_tasks self) (n_ch self) (time_shift self) g (node self)
        (_tasks_init self) (_ch_avail_init self) (_seq_opt self)
        (_loss_agg self) (spaces self).
Definition set__seq_opt (v : option (list nat)) (self : Env) : Env :=
  mkEnv (n_tasks self) (n_ch self) (time_shift self)
        (problem_gen_state self) (node self)
        (_tasks_init self) (_ch_avail_init self) v
        (_loss_agg self) (spaces self).
Definition set_init (ts : list Task) (ca : list pyfloat) (self : Env) : Env :=
  mkEnv (n_tasks self) (n_ch self) (time_shift self)
        (problem_gen_state self) (node self)
        (Some ts) (Some ca) (_seq_opt self)
        (_loss_agg self) (spaces self).
Definition set_node (nd : Node) (self : Env) : Env :=
  mkEnv (n_tasks self) (n_ch self) (time_shift self)
        (problem_gen_state self) (Some nd)
        (_tasks_init self) (_ch_avail_init self) (_seq_opt self)
        (_loss_agg self) (spaces self).
Definition set__loss_agg (v : pyfloat) (self : Env) : Env :=
  mkEnv (n_tasks self) (n_ch self) (time_shift self)
        (problem_gen_state self) (node self)
        (_tasks_init self) (_ch_avail_init self) (_seq_opt self)
        (Some v) (spaces self).

(** The first statement of [reset]: the problem to reset to, or the
    exception, with the environment as that statement leaves it. *)
Definition reset_problem (tasks : option (list Task))
    (ch_avail : option (list pyfloat)) (solve : bool) (rng : option Rng)
    (self : Env) : result (list Task * list pyfloat) * Env :=
  match tasks, ch_avail with
  | Some ts, Some ca =>
      if negb (length ts =? n_tasks self) then (Raise ValueError, self)
      else if negb (length ca =? n_ch self) then (Raise ValueError, self)
      else (Ok (ts, ca), self)
  | _, _ =>
      match problem_gen solve rng (problem_gen_state self) with
      | (Raise e, g) => (Raise e, set_problem_gen_state g self)
      | (Ok (ts, ca, seq_opt), g) =>
          let self := set_problem_gen_state g self in
          (Ok (ts, ca), set__seq_opt (if solve then seq_opt else None) self)
      end
  end.

Definition reset (tasks : option (list Task))
    (ch_avail : option (list pyfloat)) (solve : bool) (rng : option Rng)
    (self : Env) : result Obs * Env :=
  match reset_problem tasks ch_avail solve rng self with
  | (Raise e, self) => (Raise e, self)
  | (Ok (ts, ca), self) =>
      let self := set_init ts ca self in
      match (if time_shift self then ScheduleNodeShift ts ca
             else ScheduleNode ts ca) with
      | Raise e => (Raise e, self)
      | Ok nd =>
          let self := set_node nd self in
          let self := set__loss_agg (node_loss nd) self in
          let self := _update_spaces self in
          (Ok (obs self), self)
      end
  end.
End Base.
Arguments Env : clear implicits.

End environments.

(** ** [Py/task_scheduling/env_tasking.py] *)

Module env_tasking.

Section BaseTaskingEnv.
(** As above, what the file imports is taken as parameters.  The class
    attributes [_tasks_init] and [_ch_avail_init] that [reset] writes on
    [node_cls] are carried in the environment: [node_cls()] reads them. *)
Context {Task Node Obs Sol Gen Spaces : Type}.

Record Env : Type := mkEnv {
  n_tasks : nat;
  n_ch : nat;
  problem_gen_state : Gen;
  solution : option Sol;
  node_cls_tasks_init : option (list Task);
  node_cls_ch_avail_init : option (list pyfloat);
  node : option Node;
  loss_agg : option pyfloat;
  spaces : Spaces
}.

(** [self.problem_gen(1, solve=solve)], unpacked as a one-element
    sequence. *)
Variable problem_gen :
  bool -> Gen -> result (list Task * list pyfloat * option Sol) * Gen.
Variable node_cls :
  option (list Task) -> option (list pyfloat) -> result Node.
Variable node_l_ex : Node -> pyfloat.
Variable _update_spaces : Env -> Env.
Variable state : Env -> Obs.

Definition set_problem_gen_state (g : Gen) (self : Env) : Env :=
  mkEnv (n_tasks self) (n_ch self) g (solution self)
        (node_cls_tasks_init self) (node_cls_ch_avail_init self)
        (node self) (loss_agg self) (spaces self).
Definition set_solution (v : option Sol) (self : Env) : Env :=
  mkEnv (n_tasks self) (n_ch self) (problem_gen_state self) v
        (node_cls_tasks_init self) (node_cls_ch_avail_init self)
        (node self) (loss_agg self) (spaces self).
Definition set_node_cls_init (ts : list Task) (ca : list pyfloat)
    (self : Env) : Env :=
  mkEnv (n_tasks self) (n_ch self) (problem_gen_state self) (solution self)
        (Some ts) (Some ca) (node self) (loss_agg self) (spaces self).
Definition set_node (nd : Node) (self : Env) : Env :=
  mkEnv (n_tasks self) (n_ch self) (problem_gen_state self) (solution self)
        (node_cls_tasks_init self) (node_cls_ch_avail_init self)
        (Some nd) (loss_agg self) (spaces self).
Definition set_loss_agg (v : pyfloat) (self : Env) : Env :=
  mkEnv (n_tasks self) (n_ch self) (problem_gen_state self) (solution self)
        (node_cls_tasks_init self) (node_cls_ch_avail_init self)
        (node self) (Some v) (spaces self).

(** The inner [if]/[elif] chain under [if not persist]. *)
Definition reset_problem (tasks : option (list Task))
    (ch_avail : option (list pyfloat)) (solve : bool) (self : Env)
  : result (list Task * list pyfloat) * Env :=
  match tasks, ch_avail with
  | Some ts, Some ca =>
      if negb (length ts =? n_tasks self) then (Raise ValueError, self)
      else if negb (length ca =? n_ch self) then (Raise ValueError, self)
      else (Ok (ts, ca), self)
  | _, _ =>
      match problem_gen solve (problem_gen_state self) with
      | (Raise e, g) => (Raise e, set_problem_gen_state g self)
      | (Ok (ts, ca, sol), g) =>
          let self := set_problem_gen_state g self in
          (Ok (ts, ca), set_solution (if solve then sol else None) self)
      end
  end.

(** From [self.node = self.node_cls()] to the end. *)
Definition reset_node (self : Env) : result Obs * Env :=
  match node_cls (node_cls_tasks_init self) (node_cls_ch_avail_init self) with
  | Raise e => (Raise e, self)
  | Ok nd =>
      let self := set_node nd self in
      let self := set_loss_agg (node_l_ex nd) self in
      let self := _update_spaces self in
      (Ok (state self), self)
  end.

Definition reset (tasks : option (list Task))
    (ch_avail : option (list pyfloat)) (persist solve : bool)
    (self : Env) : result Obs * Env :=
  if negb persist then
    match reset_problem tasks ch_avail solve self with
    | (Raise e, self) => (Raise e, self)
    | (Ok (ts, ca), self) => reset_node (set_node_cls_init ts ca self)
    end
  else reset_node self.
End BaseTaskingEnv.
Arguments Env : clear implicits.

End env_tasking.


(** ** [Py/task_scheduling/generators/scheduling_problems.py] *)

Module scheduling_problems.

(** *** [collections.deque], the left end first *)

(** [d.extendleft(it)]: the elements of [it] are put on the left one after
    the other. *)
Definition extendleft {A} (it : list A) (d : list A) : list A :=
  foldl (fun d x => x :: d) d it.

Definition appendleft {A} (x : A) (d : list A) : list A := x :: d.

(** [d.pop()]: the rightmost element and the deque left, [IndexError] on an
    empty deque. *)
Fixpoint deque_pop {A} (d : list A) : result (A * list A) :=
  match d with
  | [] => Raise IndexError
  | [x] => Ok (x, [])
  | x :: d' => '(y, d'') ← deque_pop d'; Ok (y, x :: d'')
  end.

(** [d[0] = v]. *)
Definition deque_set0 {A} (v : A) (d : list A) : result (list A) :=
  match d with
  | [] => Raise IndexError
  | _ :: d' => Ok (v :: d')
  end.

(** [l[i]] and [l[i] = v] on a list, for an integer [i]: a negative index
    counts from the end, [IndexError] out of range. *)
Definition py_index {A} (i : Z) (l : list A) : result nat :=
  let n := Z.of_nat (length l) in
  let j := if (i <? 0)%Z then (i + n)%Z else i in
  if (0 <=? j)%Z && (j <? n)%Z then Ok (Z.to_nat j) else Raise IndexError.

Definition py_getitem {A} (i : Z) (l : list A) : result A :=
  j ← py_index i l;
  match l !! j with Some x => Ok x | None => Raise IndexError end.

Definition py_setitem {A} (i : Z) (v : A) (l : list A) : result (list A) :=
  j ← py_index i l; Ok (<[j:=v]> l).

(** *** [PermutedTasks._gen_solution] *)

Section PermutedTasks.
(** Tasks are compared with [==]; the schedule of the fixed problem comes
    from branch and bound, which is not part of the file, and is taken as
    given: its times, its channels and its run time. *)
Context {Task T_ex Ch_ex T_run : Type} `{EqDecision Task}.

(** [tasks_init.index(task)] on the copy in which the entries already used
    are [None]. *)
Fixpoint index_task (task : Task) (tasks_init : list (option Task)) : result nat :=
  match tasks_init with
  | [] => Raise ValueError
  | o :: l =>
      if bool_decide (o = Some task) then Ok O
      else i ← index_task task l; Ok (S i)
  end.

(** The [for task in problem.tasks] loop. *)
Fixpoint permutation_indices_loop (tasks : list Task)
    (tasks_init : list (option Task)) (idx : list nat) : result (list nat) :=
  match tasks with
  | [] => Ok idx
  | task :: tasks =>
      i ← index_task task tasks_init;
      permutation_indices_loop tasks (<[i:=None]> tasks_init) (idx ++ [i])
  end.

Definition permutation_indices (fixed_tasks tasks : list Task)
  : result (list nat) :=
  permutation_indices_loop tasks (Some <$> fixed_tasks) [].

(** [a[idx]] for an array and a list of indices that [index] returned. *)
Fixpoint take_indices {A} (a : list A) (idx : list nat) : result (list A) :=
  match idx with
  | [] => Ok []
  | i :: idx =>
      match a !! i with
      | Some x => t ← take_indices a idx; Ok (x :: t)
      | None => Raise IndexError
      end
  end.

Definition PermutedTasks_gen_solution (fixed_tasks : list Task)
    (t_ex : list T_ex) (ch_ex : list Ch_ex) (t_run : T_run)
    (tasks : list Task) : result (list T_ex * list Ch_ex * T_run) :=
  idx ← permutation_indices fixed_tasks tasks;
  t ← take_indices t_ex idx;
  c ← take_indices ch_ex idx;
  Ok (t, c, t_run).
End PermutedTasks.

(** *** [Dataset] *)

Section Dataset.
(** Problems and solutions are kept as they come.  Branch and bound is not
    part of the file: what [Base._gen_solution] returns for a problem, the
    schedule with its run time, is taken as a parameter. *)
Context {Task Sol : Type}.

Record SchedulingProblem : Type := mkProblem {
  tasks : list Task;
  ch_avail : list pyfloat
}.

Variable branch_bound : SchedulingProblem -> Sol.

Record Dataset : Type := mkDataset {
  n_tasks : nat;
  n_ch : nat;
  problems : list SchedulingProblem;
  solutions : list (option Sol);
  repeat : bool;
  _solution_i : option Sol
}.

(** [add_problems(problems, solutions=None)] on the two deques. *)
Definition add_problems (ps : list SchedulingProblem)
    (sols : option (list (option Sol)))
    (d : list SchedulingProblem * list (option Sol))
  : list SchedulingProblem * list (option Sol) :=
  let problems := extendleft (reverse ps) d.1 in
  let sols := match sols with
              | Some s => s
              | None => (fun _ => None) <$> seq 0 (length ps)
              end in
  (problems, extendleft (reverse sols) d.2).

(** [Dataset.__init__] with [shuffle] left at its default [False];
    [_solution_i] is first written by [_gen_problem]. *)
Definition Dataset_init (ps : list SchedulingProblem)
    (sols : option (list (option Sol))) (rep : bool) : result Dataset :=
  match ps with
  | [] => Raise IndexError
  | p :: _ =>
      let d := add_problems ps sols ([], []) in
      Ok (mkDataset (length (tasks p)) (length (ch_avail p)) d.1 d.2 rep None)
  end.

Definition set_deques (ps : list SchedulingProblem) (ss : list (option Sol))
    (self : Dataset) : Dataset :=
  mkDataset (n_tasks self) (n_ch self) ps ss (repeat self) (_solution_i self).
Definition set__solution_i (s : option Sol) (self : Dataset) : Dataset :=
  mkDataset (n_tasks self) (n_ch self) (problems self) (solutions self)
            (repeat self) s.

(** [_gen_problem]: the outcome and the dataset as the call leaves it. *)
Definition _gen_problem (self : Dataset) : result SchedulingProblem * Dataset :=
  if (length (problems self) =? 0)%nat then (Raise ValueError, self)
  else
    match deque_pop (problems self) with
    | Raise e => (Raise e, self)
    | Ok (problem, ps) =>
        let self := set_deques ps (solutions self) self in
        match deque_pop (solutions self) with
        | Raise e => (Raise e, self)
        | Ok (s, ss) =>
            let self := set__solution_i s (set_deques ps ss self) in
            let self :=
              if repeat self
              then set_deques (appendleft problem (problems self))
                              (appendleft s (solutions self)) self
              else self in
            (Ok problem, self)
        end
    end.

(** [_gen_solution], called after [_gen_problem] has set [_solution_i]. *)
Definition _gen_solution (problem : SchedulingProblem) (self : Dataset)
  : result Sol * Dataset :=
  match _solution_i self with
  | Some s => (Ok s, self)
  | None =>
      let solution := branch_bound problem in
      if repeat self then
        match deque_set0 (Some solution) (solutions self) with
        | Raise e => (Raise e, self)
        | Ok ss => (Ok solution, set_deques (problems self) ss self)
        end
      else (Ok solution, self)
  end.

(** One turn of the loop of [Base.__call__]: the item it yields. *)
Definition gen_one (solve : bool) (self : Dataset)
  : result (SchedulingProblem * option Sol) * Dataset :=
  match _gen_problem self with
  | (Raise e, self) => (Raise e, self)
  | (Ok problem, self) =>
      if solve then
        match _gen_solution problem self with
        | (Raise e, self) => (Raise e, self)
        | (Ok solution, self) => (Ok (problem, Some solution), self)
        end
      else (Ok (problem, None), self)
  end.

(** [Base.__call__(n_gen, solve)] without saving: the items yielded, the
    exception that ended the generator if one did, and the dataset left. *)
Fixpoint call (n_gen : nat) (solve : bool) (self : Dataset)
  : list (SchedulingProblem * option Sol) * option exn * Dataset :=
  match n_gen with
  | O => ([], None, self)
  | S n =>
      match gen_one solve self with
      | (Raise e, self) => ([], Some e, self)
      | (Ok item, self) =>
          let '(items, e, self) := call n solve self in
          (item :: items, e, self)
      end
  end.
End Dataset.
Arguments SchedulingProblem : clear implicits.
Arguments Dataset : clear implicits.

(** *** [Queue] *)

Record Queue : Type := mkQueue {
  q_n_tasks : nat;
  queue : list tasks.ReluDrop;
  q_ch_avail : list pyfloat
}.

(** [add_tasks(tasks)] for a list of tasks and for a single task. *)
Definition add_tasks (ts : list tasks.ReluDrop) (self : Queue) : Queue :=
  mkQueue (q_n_tasks self) (extendleft (reverse ts) (queue self))
          (q_ch_avail self).
Definition add_task (t : tasks.ReluDrop) (self : Queue) : Queue :=
  mkQueue (q_n_tasks self) (appendleft t (queue self)) (q_ch_avail self).

(** [Queue.__init__(n_tasks, tasks_full, ch_avail)]; the tasks are all of
    the one class [ReluDrop], which is what [check_task_types] asks for. *)
Definition Queue_init (n : nat) (tasks_full : list tasks.ReluDrop)
    (ch_avail : list pyfloat) : Queue :=
  add_tasks tasks_full (mkQueue n [] ch_avail).

(** [[self.queue.pop() for _ in range(k)]]. *)
Fixpoint pop_many (k : nat) (self : Queue)
  : result (list tasks.ReluDrop) * Queue :=
  match k with
  | O => (Ok [], self)
  | S k =>
      match deque_pop (queue self) with
      | Raise e => (Raise e, self)
      | Ok (t, q) =>
          match pop_many k (mkQueue (q_n_tasks self) q (q_ch_avail self)) with
          | (Raise e, self) => (Raise e, self)
          | (Ok ts, self) => (Ok (t :: ts), self)
          end
      end
  end.

(** [Queue._gen_problem]: the tasks and the channel availabilities of the
    problem. *)
Definition Queue_gen_problem (self : Queue)
  : result (list tasks.ReluDrop * list pyfloat) * Queue :=
  match pop_many (q_n_tasks self) self with
  | (Raise e, self) => (Raise e, self)
  | (Ok ts, self) => (Ok (ts, q_ch_avail self), self)
  end.

(** [Queue.update(tasks, t_ex, ch_ex)]: [zip] stops at the shortest of the
    three. *)
Fixpoint update (ts : list tasks.ReluDrop) (t_ex : list pyfloat)
    (ch_ex : list Z) (self : Queue) : result unit * Queue :=
  match ts, t_ex, ch_ex with
  | task :: ts, t_ex_i :: t_ex, ch_ex_i :: ch_ex =>
      let task :=
        snd (tasks.set_t_release (fadd t_ex_i (tasks.duration task)) task) in
      match py_getitem ch_ex_i (q_ch_avail self) with
      | Raise e => (Raise e, self)
      | Ok a =>
          match py_setitem ch_ex_i (pymax a (tasks.t_release task))
                  (q_ch_avail self) with
          | Raise e => (Raise e, self)
          | Ok ca =>
              update ts t_ex ch_ex
                (add_task task (mkQueue (q_n_tasks self) (queue self) ca))
          end
      end
  | _, _, _ => (Ok tt, self)
  end.

End scheduling_problems.

(** ** [task_scheduling/mdp/environments.py]: the sorted indices *)

Module environments_Index.
Import environments.

(** A list comprehension [[f(x) for x in l]] whose body can raise. *)
Fixpoint list_comp {A B} (f : A -> result B) (l : list A) : result (list B) :=
  match l with
  | [] => Ok []
  | x :: l => y ← f x; ys ← list_comp f l; Ok (y :: ys)
  end.

(** [a[idx]] for an array and a list of integers, each read as [a[i]]. *)
Definition take_each {A} (a : list A) (idx : list Z) : result (list A) :=
  list_comp (fun i => scheduling_problems.py_getitem i a) idx.

(** [Base.sorted_index_inv].  The property [sorted_index] is computed by
    [numpy.argsort]; its value, the same at every read in one state of the
    environment, is taken as given. *)
Definition sorted_index_inv (n_tasks : nat) (sorted_index : list Z)
  : result (list Z) :=
  list_comp (fun n => list_index n sorted_index) (range (Z.of_nat n_tasks)).

(** [Base._obs_seq], for the sequence [node.seq]. *)
Definition _obs_seq (seq sorted_index : list Z) : list Z :=
  (fun n => if bool_decide (n ∈ seq) then 1%Z else 0%Z) <$> sorted_index.

(** [Index._update_spaces]: the value given to [action_space.mask], for the
    elements of the set [node.seq_rem] in the order [list] gives them. *)
Definition _update_spaces_mask (n_tasks : nat) (sorted_index seq_rem : list Z)
  : result (list bool) :=
  inv ← sorted_index_inv n_tasks sorted_index;
  seq_rem_sort ← take_each inv seq_rem;
  Ok ((fun k => negb (bool_decide (k ∈ seq_rem_sort)))
        <$> range (Z.of_nat n_tasks)).

(** [Index.infer_valid_mask]: the entry [seq] of the observation. *)
Definition infer_valid_mask (obs_seq : list Z) : list Z := obs_seq.

(** [Index.opt_action]. *)
Definition opt_action (n_tasks : nat) (sorted_index : list Z)
    (_seq_opt : option (list Z)) (seq : list Z) : result Z :=
  match _seq_opt with
  | None => Raise ValueError
  | Some seq_opt =>
      n ← scheduling_problems.py_getitem (Z.of_nat (length seq)) seq_opt;
      inv ← sorted_index_inv n_tasks sorted_index;
      scheduling_problems.py_getitem n inv
  end.

(** The first statement of [Base.step]: the action decoded to a task. *)
Definition step_decode (sorted_index : list Z) (action : Z) : result Z :=
  scheduling_problems.py_getitem action sorted_index.

End environments_Index.

(** ** Vocabulary of the statements *)

Import tasks.

(** The ranges of the data model on binary64 parameters: each of the five
    compares [>= 0], so none is [nan]. *)
Definition ReluDropTask64 (T : tasks64.ReluDrop) : Prop :=
  (0 <=? tasks64.duration T)%float = true
  /\ (0 <=? tasks64.t_release T)%float = true
  /\ (0 <=? tasks64.slope T)%float = true
  /\ (0 <=? tasks64.t_drop T)%float = true
  /\ (0 <=? tasks64.l_drop T)%float = true.

(** [unshifted m]: whatever its outcome, [m] leaves [duration], the slope and
    the name of the task as they were. *)
Definition unshifted {A} (m : M A) : Prop :=
  forall self,
    duration (snd (m self)) = duration self
    /\ slope (snd (m self)) = slope self
    /\ _name (snd (m self)) = _name self.

(** A small instance of [BaseTaskingEnv]: tasks, nodes and observations carry
    no data, the generator yields the empty problem and building a node never
    fails.  [unit_env] has two tasks and one channel and holds a node class
    already initialised with a problem of that shape. *)
Definition unit_problem_gen (solve : bool) (g : unit)
  : result (list unit * list pyfloat * option unit) * unit :=
  (Ok ([], [], None), g).
Definition unit_node_cls (ts : option (list unit)) (ca : option (list pyfloat))
  : result unit := Ok tt.
Definition unit_env : env_tasking.Env unit unit unit unit unit :=
  env_tasking.mkEnv 2 1 tt None (Some [tt; tt]) (Some [Fin 0]) None None tt.

(** The same for [environments.Base]. *)
Definition unit_problem_gen_mdp (solve : bool) (rng : option unit) (g : unit)
  : result (list unit * list pyfloat * option (list nat)) * unit :=
  (Ok ([], [], None), g).
Definition unit_ScheduleNode (ts : list unit) (ca : list pyfloat)
  : result unit := Ok tt.
Definition unit_env_mdp : environments.Env unit unit unit unit :=
  environments.mkEnv 2 1 false tt None None None None None tt.

(** ** Vocabulary of the further properties *)


(** Lexicographic order on sequences of integers. *)
Fixpoint lex_lt (s t : list Z) : Prop :=
  match s, t with
  | x :: s', y :: t' => (x < y)%Z \/ (x = y /\ lex_lt s' t')
  | [], _ :: _ => True
  | _, [] => False
  end.

(** A list whose elements grow strictly with the position. *)
Definition increasing (r : list Z) : Prop :=
  forall k k' x x', (k < k')%nat ->
    r !! k = Some x -> r !! k' = Some x' -> (x < x')%Z.

(** The position at which [index] finds [x] in [idx]. *)
Definition index_of (idx : list Z) (x : Z) : Z :=
  match environments.list_index x idx with Ok j => j | Raise _ => 0%Z end.


(** What the generator of a [Dataset] yields for a stored pair, and the pair
    as it is stored again under [repeat]: with [solve], a missing solution
    is computed by branch and bound. *)
Definition dataset_item {Task Sol}
    (branch_bound : scheduling_problems.SchedulingProblem Task -> Sol)
    (solve : bool)
    (z : scheduling_problems.SchedulingProblem Task * option Sol)
  : scheduling_problems.SchedulingProblem Task * option Sol :=
  (z.1, if solve then Some (default (branch_bound z.1) z.2) else None).

Definition dataset_stored {Task Sol}
    (branch_bound : scheduling_problems.SchedulingProblem Task -> Sol)
    (solve : bool)
    (z : scheduling_problems.SchedulingProblem Task * option Sol)
  : scheduling_problems.SchedulingProblem Task * option Sol :=
  (z.1, if solve then Some (default (branch_bound z.1) z.2) else z.2).

(** The two deques of a dataset hold the pairs [zs]. *)
Definition dataset_holds {Task Sol}
    (self : scheduling_problems.Dataset Task Sol)
    (zs : list (scheduling_problems.SchedulingProblem Task * option Sol))
  : Prop :=
  scheduling_problems.problems self = zs.*1
  /\ scheduling_problems.solutions self = zs.*2.

(** Two small problems over tasks that carry no data, and a stand-in for
    branch and bound that returns the number of tasks. *)
Definition unit_problem_1 : scheduling_problems.SchedulingProblem unit :=
  scheduling_problems.mkProblem [tt] [Fin 0].
Definition unit_problem_2 : scheduling_problems.SchedulingProblem unit :=
  scheduling_problems.mkProblem [tt; tt] [Fin 0].
Definition count_tasks (p : scheduling_problems.SchedulingProblem unit) : nat :=
  length (scheduling_problems.tasks p).


(** The tasks as [Queue.update] puts them back: released when their
    execution ends. *)
Definition released (ts : list tasks.ReluDrop) (t_ex : list pyfloat)
  : list tasks.ReluDrop :=
  zip_with
    (fun T t => snd (tasks.set_t_release (fadd t (tasks.duration T)) T))
    ts t_ex.

(** * Properties *)

(** ** Comparisons of rationals *)

Section float_facts.
Local Open Scope Q_scope.

Lemma Qle_bool_false (x y : Q) : Qle_bool x y = false <-> y < x.
Proof.
  split; intros H.
  - apply Qnot_le_lt. intros Hle. apply Qle_bool_iff in Hle. congruence.
  - destruct (Qle_bool x y) eqn:E; [|reflexivity].
    apply Qle_bool_iff in E. lra.
Qed.

Lemma Qeq_bool_false (x y : Q) : Qeq_bool x y = false <-> ~ x == y.
Proof.
  split; intros H.
  - intros Heq. apply Qeq_bool_iff in Heq. congruence.
  - destruct (Qeq_bool x y) eqn:E; [|reflexivity].
    apply Qeq_bool_iff in E. contradiction.
Qed.
End float_facts.

(** [qcases] splits on every comparison left in the goal and turns the
    outcomes into inequalities for [lra]. *)
Ltac qbool :=
  repeat match goal with
  | H : Qle_bool _ _ = true |- _ => apply Qle_bool_iff in H
  | H : Qle_bool _ _ = false |- _ => apply Qle_bool_false in H
  | H : Qeq_bool _ _ = true |- _ => apply Qeq_bool_iff in H
  | H : Qeq_bool _ _ = false |- _ => apply Qeq_bool_false in H
  end.


(** ** Order of binary64 floats *)

Section float_order.
Local Open Scope float_scope.

Lemma SFcompare_antisym (x y : spec_float) c :
  SFcompare x y = Some c -> SFcompare y x = Some (CompOpp c).
Proof.
  destruct x as [sx|sx| |sx mx ex], y as [sy|sy| |sy my ey]; simpl;
    try discriminate;
    try (destruct sx); try (destruct sy); intros [= <-]; try reflexivity.
  - rewrite (Z.compare_antisym ex ey).
    destruct (ex ?= ey)%Z; simpl; try reflexivity.
    change (Pos.compare_cont Eq my mx) with (my ?= mx)%positive.
    change (Pos.compare_cont Eq mx my) with (mx ?= my)%positive.
    by rewrite (Pos.compare_antisym mx my), CompOpp_involutive.
  - rewrite (Z.compare_antisym ex ey).
    destruct (ex ?= ey)%Z; simpl; try reflexivity.
    change (Pos.compare_cont Eq my mx) with (my ?= mx)%positive.
    change (Pos.compare_cont Eq mx my) with (mx ?= my)%positive.
    by rewrite (Pos.compare_antisym mx my).
Qed.

(** [x < y] excludes [y <= x], and [x <= y] excludes [y < x]. *)
Lemma ltb_leb_false (x y : float) : (x <? y) = true -> (y <=? x) = false.
Proof.
  rewrite ltb_spec, leb_spec. unfold SFltb, SFleb.
  destruct (SFcompare (Prim2SF x) (Prim2SF y)) as [[]|] eqn:E; try discriminate.
  intros _. by rewrite (SFcompare_antisym _ _ _ E).
Qed.

Lemma leb_ltb_false (x y : float) : (x <=? y) = true -> (y <? x) = false.
Proof.
  rewrite ltb_spec, leb_spec. unfold SFltb, SFleb.
  destruct (SFcompare (Prim2SF x) (Prim2SF y)) as [[]|] eqn:E; try discriminate;
    intros _; by rewrite (SFcompare_antisym _ _ _ E).
Qed.

Lemma ltb_leb (x y : float) : (x <? y) = true -> (x <=? y) = true.
Proof.
  rewrite ltb_spec, leb_spec. unfold SFltb, SFleb.
  by destruct (SFcompare (Prim2SF x) (Prim2SF y)) as [[]|].
Qed.

(** A float below a negative one is below every non-negative one. *)
Lemma ltb_negative_leb_false (x a y : float) :
  (x <? a) = true -> (a <? 0) = true -> (0 <=? y) = true -> (y <=? x) = false.
Proof.
  rewrite !ltb_spec, !leb_spec.
  change (Prim2SF 0) with (S754_zero false).
  unfold SFltb, SFleb.
  destruct (Prim2SF x) as [sx|sx| |sx mx ex], (Prim2SF a) as [sa|sa| |sa ma ea],
    (Prim2SF y) as [sy|sy| |sy my ey]; simpl;
    try discriminate; try reflexivity;
    try (destruct sx); try (destruct sa); try (destruct sy);
    simpl; try discriminate; try reflexivity.
Qed.

Lemma pymax_nonneg (x : float) : (0 <=? tasks64.pymax 0 x) = true.
Proof.
  unfold tasks64.pymax. destruct (0 <? x) eqn:E; [by apply ltb_leb|].
  reflexivity.
Qed.
End float_order.

(** ** The loss function on binary64 floats *)

Section loss64.
Import tasks64.
Local Open Scope float_scope.

(** C1, as stated, fails: half a nanosecond before the release time the
    loss is a (negative) number, not [nan]. *)
Lemma call_before_release_within_tolerance :
  let T := task None 1 0 1 1 1 in
  let t := - 0x1.12e0be826d695p-31 in
  ReluDropTask64 T
  /\ (t <? t_release T) = true
  /\ call T t = t
  /\ is_nan (call T t) = false.
Proof. vm_compute. repeat split; reflexivity. Qed.

(** C1 (amended).  For every ReluDrop task with non-negative parameters and
    every time [t], with the relative time [t - t_release] as the code
    computes it: the loss is [nan] when it is below [-1e-9], [l_drop] when it
    is at least [t_drop], and in between the product of the slope and the
    relative time. *)
Theorem call_piecewise (T : ReluDrop) (t : float) :
  ReluDropTask64 T ->
  ((t - t_release T <? - eps) = true -> call T t = nan)
  /\ ((- eps <=? t - t_release T) = true ->
      (t - t_release T <? t_drop T) = true ->
      call T t = slope T * (t - t_release T))
  /\ ((t_drop T <=? t - t_release T) = true -> call T t = l_drop T).
Proof.
  intros (_ & _ & _ & Htd & _). unfold call. repeat split.
  - intros H. rewrite H.
    by rewrite (ltb_negative_leb_false _ (- eps) (t_drop T) H eq_refl Htd).
  - intros H1 H2.
    by rewrite (leb_ltb_false _ _ H1), (ltb_leb_false _ _ H2).
  - intros H. by rewrite H.
Qed.

Lemma call_piecewise_witness :
  call (task None 1 1 2 3 10) 0 = nan
  /\ call (task None 1 1 2 3 10) 2 = 2 * (2 - 1)
  /\ call (task None 1 1 2 3 10) 5 = 10.
Proof.
  assert (ReluDropTask64 (task None 1 1 2 3 10)) as Hwf
    by (vm_compute; repeat split; reflexivity).
  split; [|split].
  - apply (call_piecewise (task None 1 1 2 3 10) 0 Hwf). reflexivity.
  - apply (call_piecewise (task None 1 1 2 3 10) 2 Hwf); reflexivity.
  - apply (call_piecewise (task None 1 1 2 3 10) 5 Hwf). reflexivity.
Defined.
End loss64.

(** ** Construction *)

Section construction.
Local Open Scope Q_scope.

(** C3, as stated, fails: a negative duration and a negative release time
    are accepted. *)
Lemma init_negative_accepted :
  -1 < 0 /\ -2 < 0
  /\ ReluDrop_init (Fin (-1)) (Fin (-2)) (Fin 1) (Fin 1) (Fin 1) None
     = Ok (task None (-1) (-2) 1 1 1).
Proof. repeat split. Qed.

(** C3 (amended).  Constructing a ReluDrop task from finite parameters with
    [l_drop >= slope * t_drop] does not raise, whatever the signs of the
    duration and of the release time: the five parameters are stored as
    given (and the name is dropped). *)
Theorem init_stores_parameters (name : option string) (d r s td ld : Q) :
  s * td <= ld ->
  ReluDrop_init (Fin d) (Fin r) (Fin s) (Fin td) (Fin ld) name
  = Ok (task None d r s td ld).
Proof. reflexivity. Qed.

Lemma init_stores_parameters_witness :
  ReluDrop_init (Fin (-1)) (Fin (-2)) (Fin 1) (Fin 1) (Fin 1) (Some "a"%string)
  = Ok (task None (-1) (-2) 1 1 1).
Proof. apply init_stores_parameters. lra. Defined.
End construction.


(** ** What a shift leaves alone *)

Create HintDb frame.

Lemma unshifted_ret {A} (a : A) : unshifted (ret a).
Proof. by intros self. Qed.

Lemma unshifted_raise {A} e : unshifted (raise (A := A) e).
Proof. by intros self. Qed.

Lemma unshifted_get : unshifted get.
Proof. by intros self. Qed.

Lemma unshifted_bind {A B} (m : M A) (k : A -> M B) :
  unshifted m -> (forall a, unshifted (k a)) -> unshifted (bind m k).
Proof.
  intros Hm Hk self. unfold bind.
  destruct (Hm self) as (Hd & Hs & Hn).
  destruct (m self) as [[a|e] self']; simpl in *; [|done].
  destruct (Hk a self') as (Hd' & Hs' & Hn'). by rewrite Hd', Hs', Hn'.
Qed.

Lemma unshifted_if {A} (b : bool) (m1 m2 : M A) :
  unshifted m1 -> unshifted m2 -> unshifted (if b then m1 else m2).
Proof. by destruct b. Qed.

Lemma unshifted_set_t_release v : unshifted (set_t_release v).
Proof. by intros self. Qed.

Lemma unshifted_set__t_drop v : unshifted (set__t_drop v).
Proof. by intros self. Qed.

Lemma unshifted_set__l_drop v : unshifted (set__l_drop v).
Proof. by intros self. Qed.

#[local] Hint Resolve unshifted_ret unshifted_raise unshifted_get
  unshifted_set_t_release unshifted_set__t_drop unshifted_set__l_drop : frame.
#[local] Hint Extern 2 (unshifted (bind _ _)) =>
  apply unshifted_bind; [|intros ?] : frame.
#[local] Hint Extern 2 (unshifted (if _ then _ else _)) =>
  apply unshifted_if : frame.

Lemma unshifted_check s td ld : unshifted (_check_non_decreasing s td ld).
Proof. unfold _check_non_decreasing. auto with frame. Qed.
#[local] Hint Resolve unshifted_check : frame.

Lemma unshifted_t_drop_setter v : unshifted (t_drop_setter v).
Proof. unfold t_drop_setter. auto 10 with frame. Qed.

Lemma unshifted_l_drop_setter v : unshifted (l_drop_setter v).
Proof. unfold l_drop_setter. auto 10 with frame. Qed.
#[local] Hint Resolve unshifted_t_drop_setter unshifted_l_drop_setter : frame.

(** C9.  For every ReluDrop object and every shift, whether [shift_origin]
    returns or raises, the object it leaves has the duration and the slope
    (and the name) it had: only [t_release], [t_drop] and [l_drop] can
    change. *)
Theorem shift_origin_frame (T : ReluDrop) (t : pyfloat) :
  duration (snd (shift_origin t T)) = duration T
  /\ slope (snd (shift_origin t T)) = slope T
  /\ _name (snd (shift_origin t T)) = _name T.
Proof.
  revert T. change (unshifted (shift_origin t)).
  unfold shift_origin. auto 20 with frame.
Qed.

(** ** Property setters on binary64 floats *)

Section setters64.
Import tasks64.
Local Open Scope float_scope.

(** C10.  On a task with [l_drop >= slope * t_drop], assigning [v] to
    [slope], [t_drop] or [l_drop] raises [ValueError] and leaves the task as
    it was when the assignment would give [l_drop < slope * t_drop];
    when it keeps [l_drop >= slope * t_drop] it returns and only the
    assigned attribute has changed.  The product is the rounded one that the
    check computes. *)
Theorem setters_atomic name d r s td ld v :
  (s * td <=? ld) = true ->
  ((ld <? v * td) = true ->
     slope_setter v (task name d r s td ld)
     = (Raise ValueError, task name d r s td ld))
  /\ ((v * td <=? ld) = true ->
     slope_setter v (task name d r s td ld)
     = (Ok tt, task name d r v td ld))
  /\ ((ld <? s * v) = true ->
     t_drop_setter v (task name d r s td ld)
     = (Raise ValueError, task name d r s td ld))
  /\ ((s * v <=? ld) = true ->
     t_drop_setter v (task name d r s td ld)
     = (Ok tt, task name d r s v ld))
  /\ ((v <? s * td) = true ->
     l_drop_setter v (task name d r s td ld)
     = (Raise ValueError, task name d r s td ld))
  /\ ((s * td <=? v) = true ->
     l_drop_setter v (task name d r s td ld)
     = (Ok tt, task name d r s td v)).
Proof.
  intros _.
  unfold slope_setter, t_drop_setter, l_drop_setter, bind, get,
    _check_non_decreasing, raise, ret, task, slope, t_drop, l_drop; simpl.
  repeat split; intros H;
    first [by rewrite H | by rewrite (leb_ltb_false _ _ H)].
Qed.

(** The witness is on the doubles [0.1], [0.3], [0.03] and [0.4]: the
    rounded product [0.1 * 0.3] is the double [0.03]. *)
Lemma setters_atomic_witness :
  let T := task None 1 0 0x1.999999999999ap-4 0x1.3333333333333p-2
             0x1.eb851eb851eb8p-6 in
  slope_setter 0x1.999999999999ap-2 T = (Raise ValueError, T)
  /\ t_drop_setter 0x1.999999999999ap-2 T = (Raise ValueError, T)
  /\ l_drop_setter 0x1.eb851eb851eb8p-6 T = (Ok tt, T)
  /\ l_drop_setter 0x1.999999999999ap-2 T
     = (Ok tt, task None 1 0 0x1.999999999999ap-4 0x1.3333333333333p-2
                 0x1.999999999999ap-2).
Proof.
  intros T.
  destruct (setters_atomic None 1 0 0x1.999999999999ap-4 0x1.3333333333333p-2
              0x1.eb851eb851eb8p-6 0x1.999999999999ap-2 eq_refl)
    as (Hs & _ & Ht & _ & _ & Hl).
  destruct (setters_atomic None 1 0 0x1.999999999999ap-4 0x1.3333333333333p-2
              0x1.eb851eb851eb8p-6 0x1.eb851eb851eb8p-6 eq_refl)
    as (_ & _ & _ & _ & _ & Hl').
  split; [apply Hs; reflexivity|]. split; [apply Ht; reflexivity|].
  split; [apply Hl'; reflexivity|apply Hl; reflexivity].
Defined.
End setters64.

(** ** [shift_origin] on binary64 floats *)

Section shift64.
Import tasks64.
Local Open Scope float_scope.

(** C2: the failing input.  The task [ReluDrop(1, 0, 0.1, 1.0, 0.1)] has
    non-negative parameters and [l_drop >= slope * t_drop], and the shift
    [0.1] is positive; [shift_origin] raises [ValueError] from the [l_drop]
    setter, with the drop time already moved to [0.9] and [l_drop] as it
    was. *)
Lemma shift_origin_rounding_raises :
  let T := task None 1 0 0x1.999999999999ap-4 1 0x1.999999999999ap-4 in
  ReluDropTask64 T
  /\ (slope T * t_drop T <=? l_drop T) = true
  /\ (0 <? 0x1.999999999999ap-4) = true
  /\ shift_origin 0x1.999999999999ap-4 T
     = (Raise ValueError,
        task None 1 0 0x1.999999999999ap-4 0x1.ccccccccccccdp-1
          0x1.999999999999ap-4).
Proof. vm_compute. repeat split; reflexivity. Qed.

(** C4: the failing input.  On [ReluDrop(1, 0, 0.1, 0.5, 0.05)], which has
    [l_drop >= slope * t_drop], the shift [0.1] makes the check of the
    [l_drop] setter fail: the loss taken off [l_drop] leaves less than the
    rounded product of the slope and the new drop time. *)
Lemma shift_origin_l_drop_check_raises :
  let T := task None 1 0 0x1.999999999999ap-4 0x1p-1 0x1.999999999999ap-5 in
  let T' := snd (shift_origin 0x1.999999999999ap-4 T) in
  (slope T * t_drop T <=? l_drop T) = true
  /\ fst (shift_origin 0x1.999999999999ap-4 T) = Raise ValueError
  /\ t_drop T' = 0x1.999999999999ap-2
  /\ (l_drop T - call T 0x1.999999999999ap-4 <? slope T' * t_drop T') = true.
Proof. vm_compute. repeat split; reflexivity. Qed.
End shift64.

(** ** The factorial-base encodings *)

Section encodings.
Import environments.
Local Open Scope Z_scope.
Implicit Types (l r s seq : list Z) (x n : Z) (k m : nat).

Lemma factorial_of_nat m : factorial (Z.of_nat m) = Ok (Z.of_nat (fact m)).
Proof.
  unfold factorial. destruct (Z.ltb_spec (Z.of_nat m) 0); [lia|].
  by rewrite Nat2Z.id.
Qed.

Lemma fact_pos_Z m : 0 < Z.of_nat (fact m).
Proof. pose proof (lt_O_fact m). lia. Qed.

Lemma fact_succ_Z m :
  Z.of_nat (fact (S m)) = Z.of_nat (S m) * Z.of_nat (fact m).
Proof. simpl fact. lia. Qed.

Lemma range_of_nat m : range (Z.of_nat m) = Z.of_nat <$> seq 0 m.
Proof. unfold range. by rewrite Nat2Z.id. Qed.

Lemma length_range m : length (range (Z.of_nat m)) = m.
Proof. by rewrite range_of_nat, length_fmap, length_seq. Qed.

Lemma NoDup_range n : NoDup (range n).
Proof.
  unfold range. apply NoDup_fmap_2; [apply Nat2Z.inj'|apply NoDup_seq].
Qed.

(** In a list without duplicates the first occurrence is the only one. *)
Lemma list_index_lookup l k x :
  NoDup l -> l !! k = Some x -> list_index x l = Ok (Z.of_nat k).
Proof.
  revert k. induction l as [|y l IH]; intros k Hnd Hk; [done|].
  apply NoDup_cons in Hnd as [Hy Hnd]. simpl.
  destruct k as [|k]; simpl in Hk.
  - injection Hk as ->. by rewrite bool_decide_eq_true_2.
  - rewrite bool_decide_eq_false_2.
    + rewrite (IH k Hnd Hk). simpl. f_equal. lia.
    + intros ->. apply Hy. by eapply list_elem_of_lookup_2.
Qed.

Lemma list_remove_lookup l k x :
  NoDup l -> l !! k = Some x -> list_remove x l = Ok (delete k l).
Proof.
  revert k. induction l as [|y l IH]; intros k Hnd Hk; [done|].
  apply NoDup_cons in Hnd as [Hy Hnd]. simpl.
  destruct k as [|k]; simpl in Hk.
  - injection Hk as ->. by rewrite bool_decide_eq_true_2.
  - rewrite bool_decide_eq_false_2.
    + by rewrite (IH k Hnd Hk).
    + intros ->. apply Hy. by eapply list_elem_of_lookup_2.
Qed.

Lemma list_pop_lookup l k x :
  l !! k = Some x -> list_pop (Z.of_nat k) l = Ok (x, delete k l).
Proof.
  intros Hk. pose proof (lookup_lt_Some _ _ _ Hk) as Hlt.
  unfold list_pop.
  destruct (Z.ltb_spec (Z.of_nat k) 0); [lia|].
  destruct (Z.leb_spec 0 (Z.of_nat k)); [|lia].
  destruct (Z.ltb_spec (Z.of_nat k) (Z.of_nat (length l))); [|lia].
  simpl. by rewrite Nat2Z.id, Hk.
Qed.

Lemma NoDup_delete_lookup l k x :
  l !! k = Some x -> NoDup l -> NoDup (delete k l).
Proof.
  intros Hk Hnd. rewrite (delete_Permutation l k x Hk) in Hnd.
  by apply NoDup_cons in Hnd as [_ ?].
Qed.

Lemma length_delete_lookup l k x :
  l !! k = Some x -> length l = S (length (delete k l)).
Proof.
  intros Hk. by rewrite (Permutation_length (delete_Permutation l k x Hk)).
Qed.

(** A digit [k < S m] followed by a number below [m!] is a number below
    [(S m)!], from which [divmod] by [m!] gives both back. *)
Lemma digit_bound m k c :
  (k < S m)%nat -> 0 <= c < Z.of_nat (fact m) ->
  0 <= Z.of_nat k * Z.of_nat (fact m) + c < Z.of_nat (fact (S m)).
Proof. intros Hk Hc. rewrite fact_succ_Z. nia. Qed.

Lemma digit_div m k c :
  0 <= c < Z.of_nat (fact m) ->
  (Z.of_nat k * Z.of_nat (fact m) + c) `div` Z.of_nat (fact m) = Z.of_nat k.
Proof.
  intros Hc. rewrite Z.add_comm, Z.div_add by lia.
  rewrite Z.div_small by lia. lia.
Qed.

Lemma digit_mod m k c :
  0 <= c < Z.of_nat (fact m) ->
  (Z.of_nat k * Z.of_nat (fact m) + c) `mod` Z.of_nat (fact m) = c.
Proof.
  intros Hc. rewrite Z.add_comm, Z.mod_add by lia.
  by apply Z.mod_small.
Qed.

Lemma int_to_seq_loop_nil fuel acc c :
  int_to_seq_loop fuel [] acc c = Some (Ok acc).
Proof. by destruct fuel. Qed.

(** One turn of the [while] loop on a non-empty list. *)
Lemma int_to_seq_loop_step fuel r acc k x c m :
  length r = S m -> r !! k = Some x -> 0 <= c < Z.of_nat (fact m) ->
  int_to_seq_loop (S fuel) r acc (Z.of_nat k * Z.of_nat (fact m) + c)
  = int_to_seq_loop fuel (delete k r) (acc ++ [x]) c.
Proof.
  intros Hlen Hk Hc. cbn [int_to_seq_loop]. rewrite Hlen.
  destruct (Z.ltb_spec 0 (Z.of_nat (S m))); [|lia].
  replace (Z.of_nat (S m) - 1) with (Z.of_nat m) by lia.
  rewrite factorial_of_nat. cbv zeta.
  rewrite digit_div, digit_mod by done.
  by rewrite (list_pop_lookup _ _ _ Hk).
Qed.

(** One turn of the [for] loop. *)
Lemma seq_to_int_loop_step L i x s r k m num :
  NoDup r -> length r = S m -> r !! k = Some x -> L - i = Z.of_nat (S m) ->
  seq_to_int_loop L i (x :: s) r num
  = seq_to_int_loop L (i + 1) s (delete k r)
      (num + Z.of_nat k * Z.of_nat (fact m)).
Proof.
  intros Hnd Hlen Hk HL. cbn [seq_to_int_loop].
  rewrite (list_index_lookup _ _ _ Hnd Hk). simpl.
  replace (L - 1 - i) with (Z.of_nat m) by lia.
  rewrite factorial_of_nat. simpl.
  by rewrite (list_remove_lookup _ _ _ Hnd Hk).
Qed.

(** Encoding a permutation [s] of the remaining elements [r] adds a code
    below [|r|!], and the decoding loop reads [s] back from that code. *)
Lemma encode_then_decode s : forall r,
  NoDup r -> s ≡ₚ r ->
  exists c, 0 <= c < Z.of_nat (fact (length r))
    /\ (forall L i num, L - i = Z.of_nat (length r) ->
          seq_to_int_loop L i s r num = Ok (num + c))
    /\ (forall acc, int_to_seq_loop (length r) r acc c = Some (Ok (acc ++ s))).
Proof.
  induction s as [|x s IH]; intros r Hnd Hperm.
  - apply Permutation_nil_l in Hperm as <-. exists 0. simpl.
    split; [lia|]. split; intros.
    + f_equal. lia.
    + by rewrite app_nil_r.
  - assert (x ∈ r) as Hx by (rewrite <- Hperm; left).
    apply list_elem_of_lookup_1 in Hx as [k Hk].
    pose proof (length_delete_lookup _ _ _ Hk) as Hlen.
    pose proof (lookup_lt_Some _ _ _ Hk) as Hlt.
    destruct (IH (delete k r)) as (c & Hc & Henc & Hdec).
    { by eapply NoDup_delete_lookup. }
    { rewrite (delete_Permutation r k x Hk) in Hperm.
      by apply Permutation_cons_inv in Hperm. }
    set (m := length (delete k r)) in *.
    exists (Z.of_nat k * Z.of_nat (fact m) + c). rewrite Hlen.
    split; [apply digit_bound; [lia|done]|]. split.
    + intros L i num HL.
      rewrite (seq_to_int_loop_step L i x s r k m) by done.
      rewrite Henc by lia. f_equal. lia.
    + intros acc.
      rewrite (int_to_seq_loop_step m r acc k x c m) by done.
      rewrite Hdec. by rewrite <- app_assoc.
Qed.

(** Decoding a number below [|r|!] pops a permutation [s] of [r] whose
    code is that number. *)
Lemma decode_then_encode m : forall r c,
  length r = m -> NoDup r -> 0 <= c < Z.of_nat (fact m) ->
  exists s, s ≡ₚ r
    /\ (forall acc, int_to_seq_loop m r acc c = Some (Ok (acc ++ s)))
    /\ (forall L i num, L - i = Z.of_nat m ->
          seq_to_int_loop L i s r num = Ok (num + c)).
Proof.
  induction m as [|m IH]; intros r c Hlen Hnd Hc.
  - apply nil_length_inv in Hlen as ->. exists []. simpl in *.
    split; [done|]. split; intros.
    + by rewrite app_nil_r.
    + f_equal. lia.
  - pose proof (fact_pos_Z m) as Hpos.
    set (q := c `div` Z.of_nat (fact m)).
    set (c' := c `mod` Z.of_nat (fact m)).
    assert (0 <= c' < Z.of_nat (fact m)) as Hc' by (apply Z.mod_pos_bound; lia).
    assert (c = q * Z.of_nat (fact m) + c') as Hcq.
    { unfold q, c'. rewrite Z.mul_comm. apply Z.div_mod. lia. }
    assert (0 <= q < Z.of_nat (S m)) as Hq.
    { rewrite fact_succ_Z in Hc. split.
      - apply Z.div_pos; lia.
      - apply Z.div_lt_upper_bound; lia. }
    destruct (lookup_lt_is_Some_2 r (Z.to_nat q)) as [x Hk]; [lia|].
    pose proof (length_delete_lookup _ _ _ Hk) as Hlen'.
    destruct (IH (delete (Z.to_nat q) r) c') as (s & Hperm & Hdec & Henc);
      [lia|by eapply NoDup_delete_lookup|done|].
    exists (x :: s). rewrite Hcq.
    replace q with (Z.of_nat (Z.to_nat q)) by lia.
    split; [by rewrite (delete_Permutation r _ x Hk), Hperm|]. split.
    + intros acc.
      rewrite (int_to_seq_loop_step m r acc (Z.to_nat q) x c' m) by done.
      rewrite Hdec. by rewrite <- app_assoc.
    + intros L i num HL.
      rewrite (seq_to_int_loop_step L i x s r (Z.to_nat q) m) by done.
      rewrite Henc by lia. f_equal. lia.
Qed.

(** The test [set(seq) != set(seq_rem)] of [seq_to_int] is false exactly on
    the permutations of [range(len(seq))]. *)
Lemma set_test_permutation seq :
  (list_to_set seq : gset Z) = list_to_set (range (Z.of_nat (length seq)))
  <-> seq ≡ₚ range (Z.of_nat (length seq)).
Proof.
  split; intros H.
  - symmetry. apply submseteq_length_Permutation.
    + apply NoDup_submseteq; [apply NoDup_range|].
      intros x Hx.
      apply (elem_of_list_to_set (C := gset Z)).
      rewrite H. by apply elem_of_list_to_set.
    + by rewrite length_range.
  - by apply list_to_set_perm_L.
Qed.

Lemma seq_to_int_unfold seq b m :
  seq ≡ₚ range (Z.of_nat m) ->
  seq_to_int seq b = seq_to_int_loop (Z.of_nat m) 0 seq (range (Z.of_nat m)) 0.
Proof.
  intros Hperm.
  assert (length seq = m) as Hlen
    by (by rewrite (Permutation_length Hperm), length_range).
  unfold seq_to_int. rewrite Hlen.
  rewrite bool_decide_eq_false_2, andb_false_r; [done|].
  intros Hne. apply Hne. rewrite <- Hlen. apply set_test_permutation.
  by rewrite Hlen.
Qed.

Lemma int_to_seq_unfold num b m :
  0 <= num < Z.of_nat (fact m) ->
  int_to_seq num (Z.of_nat m) b
  = int_to_seq_loop m (range (Z.of_nat m)) [] num.
Proof.
  intros Hnum. unfold int_to_seq, not_in_range_factorial.
  rewrite factorial_of_nat, length_range. simpl.
  destruct (Z.leb_spec 0 num); [|lia].
  destruct (Z.ltb_spec num (Z.of_nat (fact m))); [|lia].
  by destruct b.
Qed.

(** The fuel [int_to_seq] gives its loop is never used up: each turn pops
    one element or raises. *)
Lemma list_pop_length i l x l' :
  list_pop i l = Ok (x, l') -> length l = S (length l').
Proof.
  unfold list_pop. case_match; [|done].
  destruct (l !! _) as [y|] eqn:Hk; [|done].
  intros [= <- <-]. by eapply length_delete_lookup.
Qed.

Lemma int_to_seq_loop_total fuel : forall r acc c,
  (length r <= fuel)%nat -> int_to_seq_loop fuel r acc c <> None.
Proof.
  induction fuel as [|fuel IH]; intros r acc c Hlen.
  - destruct r; simpl in *; [done|lia].
  - destruct r as [|y r]; [done|].
    cbn [int_to_seq_loop]. case_match; [|done].
    replace (Z.of_nat (length (y :: r)) - 1) with (Z.of_nat (length r))
      by (simpl; lia).
    rewrite factorial_of_nat.
    destruct (list_pop _ (y :: r)) as [[x l']|e] eqn:Hpop; [|done].
    apply IH. apply list_pop_length in Hpop. simpl in *. lia.
Qed.

Lemma int_to_seq_total num len b : int_to_seq num len b <> None.
Proof.
  unfold int_to_seq.
  destruct (if b then _ else _) as [[|]|e]; try done.
  apply int_to_seq_loop_total. lia.
Qed.

Example seq_to_int_201 : seq_to_int [2; 0; 1] true = Ok 4.
Proof. vm_compute. reflexivity. Qed.

Example int_to_seq_4 : int_to_seq 4 3 true = Some (Ok [2; 0; 1]).
Proof. vm_compute. reflexivity. Qed.

(** Without the check a negative number is decoded all the same, [pop]
    counting from the end. *)
Example int_to_seq_unchecked : int_to_seq (-1) 3 false = Some (Ok [2; 1; 0]).
Proof. vm_compute. reflexivity. Qed.

Example seq_to_int_unchecked : seq_to_int [0; 0; 1] false = Raise ValueError.
Proof. vm_compute. reflexivity. Qed.

(** The two directions of the round trip, for either value of
    [check_input] in either function. *)
Lemma seq_to_int_then_int_to_seq (m : nat) (b1 b2 : bool) seq :
  seq ≡ₚ range (Z.of_nat m) ->
  exists num, seq_to_int seq b1 = Ok num
    /\ 0 <= num < Z.of_nat (fact m)
    /\ int_to_seq num (Z.of_nat m) b2 = Some (Ok seq).
Proof.
  intros Hperm.
  destruct (encode_then_decode seq (range (Z.of_nat m)))
    as (c & Hc & Henc & Hdec); [apply NoDup_range|done|].
  rewrite length_range in *.
  exists c. split; [|split; [done|]].
  - rewrite (seq_to_int_unfold seq b1 m Hperm). by rewrite Henc by lia.
  - rewrite int_to_seq_unfold by done. by rewrite Hdec.
Qed.

Lemma int_to_seq_then_seq_to_int (m : nat) (b1 b2 : bool) num :
  0 <= num < Z.of_nat (fact m) ->
  exists seq, int_to_seq num (Z.of_nat m) b1 = Some (Ok seq)
    /\ seq ≡ₚ range (Z.of_nat m)
    /\ seq_to_int seq b2 = Ok num.
Proof.
  intros Hnum.
  destruct (decode_then_encode m (range (Z.of_nat m)) num)
    as (s & Hperm & Hdec & Henc);
    [apply length_range|apply NoDup_range|done|].
  exists s. split; [|split; [done|]].
  - rewrite int_to_seq_unfold by done. by rewrite Hdec.
  - rewrite (seq_to_int_unfold s b2 m Hperm). by rewrite Henc by lia.
Qed.

(** C5.  For every [m], [seq_to_int] maps each permutation of [range(m)]
    to a number in [range(factorial(m))] from which [int_to_seq] returns
    the permutation, and [int_to_seq] maps each number in
    [range(factorial(m))] to a permutation of [range(m)] from which
    [seq_to_int] returns the number. *)
Theorem encodings_mutual_inverses (m : nat) (b1 b2 : bool) :
  (forall seq, seq ≡ₚ range (Z.of_nat m) ->
     exists num, seq_to_int seq b1 = Ok num
       /\ 0 <= num < Z.of_nat (fact m)
       /\ int_to_seq num (Z.of_nat m) b2 = Some (Ok seq))
  /\ (forall num, 0 <= num < Z.of_nat (fact m) ->
     exists seq, int_to_seq num (Z.of_nat m) b1 = Some (Ok seq)
       /\ seq ≡ₚ range (Z.of_nat m)
       /\ seq_to_int seq b2 = Ok num).
Proof.
  split.
  - intros seq. apply seq_to_int_then_int_to_seq.
  - intros num. apply int_to_seq_then_seq_to_int.
Qed.

Lemma permutation_201 : [2; 0; 1] ≡ₚ range 3.
Proof.
  change (range 3) with [0; 1; 2].
  etrans; [apply Permutation_swap|]. apply perm_skip, Permutation_swap.
Qed.

Lemma encodings_mutual_inverses_witness :
  (exists num, seq_to_int [2; 0; 1] true = Ok num
     /\ 0 <= num < 6
     /\ int_to_seq num 3 true = Some (Ok [2; 0; 1]))
  /\ (exists seq, int_to_seq 4 3 true = Some (Ok seq)
     /\ seq ≡ₚ range 3
     /\ seq_to_int seq true = Ok 4).
Proof.
  destruct (encodings_mutual_inverses 3 true true) as [Henc Hdec].
  split.
  - apply Henc, permutation_201.
  - apply Hdec. simpl. lia.
Defined.

(** C6.  With [check_input] on, [seq_to_int] raises [ValueError] on every
    sequence that is not a permutation of [range(len(seq))] and returns on
    every one that is; [int_to_seq] raises [ValueError] on every number
    outside [range(factorial(m))] and returns on every one inside. *)
Theorem checked_encodings_raise :
  (forall seq, ~ seq ≡ₚ range (Z.of_nat (length seq)) ->
     seq_to_int seq true = Raise ValueError)
  /\ (forall seq, seq ≡ₚ range (Z.of_nat (length seq)) ->
     exists num, seq_to_int seq true = Ok num)
  /\ (forall (m : nat) num, ~ 0 <= num < Z.of_nat (fact m) ->
     int_to_seq num (Z.of_nat m) true = Some (Raise ValueError))
  /\ (forall (m : nat) num, 0 <= num < Z.of_nat (fact m) ->
     exists seq, int_to_seq num (Z.of_nat m) true = Some (Ok seq)).
Proof.
  split; [|split; [|split]].
  - intros seq Hperm. unfold seq_to_int.
    rewrite bool_decide_eq_true_2; [done|].
    intros Heq. by apply Hperm, set_test_permutation.
  - intros seq Hperm.
    destruct (seq_to_int_then_int_to_seq (length seq) true true seq Hperm)
      as (num & Hnum & _).
    by exists num.
  - intros m num Hnum. unfold int_to_seq, not_in_range_factorial.
    rewrite factorial_of_nat. simpl.
    assert ((0 <=? num) && (num <? Z.of_nat (fact m)) = false) as ->; [|done].
    apply andb_false_iff. rewrite Z.leb_gt, Z.ltb_ge. lia.
  - intros m num Hnum.
    destruct (int_to_seq_then_seq_to_int m true true num Hnum)
      as (s & Hs & _).
    by exists s.
Qed.

Lemma not_permutation_001 : ~ [0; 0; 1] ≡ₚ range 3.
Proof.
  intros Hperm. apply (NoDup_Permutation_proper _ _) in Hperm.
  assert (NoDup [0; 0; 1]) as Hnd by (apply Hperm, NoDup_range).
  apply NoDup_cons in Hnd as [Hin _]. apply Hin. left.
Qed.

Lemma checked_encodings_raise_witness :
  seq_to_int [0; 0; 1] true = Raise ValueError
  /\ (exists num, seq_to_int [2; 0; 1] true = Ok num)
  /\ int_to_seq 6 3 true = Some (Raise ValueError)
  /\ int_to_seq (-1) 3 true = Some (Raise ValueError)
  /\ (exists seq, int_to_seq 5 3 true = Some (Ok seq)).
Proof.
  destruct checked_encodings_raise as (Hbad & Hgood & Hout & Hin).
  split; [apply Hbad, not_permutation_001|].
  split; [apply Hgood, permutation_201|].
  split; [apply (Hout 3%nat); simpl; lia|].
  split; [apply (Hout 3%nat); simpl; lia|].
  apply (Hin 3%nat). simpl. lia.
Defined.
End encodings.

(** ** [reset] and the shape of its inputs *)

Section reset_shape.
Context {Task Node Obs Rng Gen Spaces Sol : Type}.

(** What [environments.Base.reset] is parameterised by. *)
Variable problem_gen :
  bool -> option Rng -> Gen ->
  result (list Task * list pyfloat * option (list nat)) * Gen.
Variables ScheduleNode ScheduleNodeShift :
  list Task -> list pyfloat -> result Node.
Variable node_loss : Node -> pyfloat.
Variable update_spaces :
  environments.Env Task Node Gen Spaces -> environments.Env Task Node Gen Spaces.
Variable obs : environments.Env Task Node Gen Spaces -> Obs.

(** What [env_tasking.BaseTaskingEnv.reset] is parameterised by. *)
Variable problem_gen' :
  bool -> Gen -> result (list Task * list pyfloat * option Sol) * Gen.
Variable node_cls :
  option (list Task) -> option (list pyfloat) -> result Node.
Variable node_l_ex : Node -> pyfloat.
Variable update_spaces' :
  env_tasking.Env Task Node Sol Gen Spaces ->
  env_tasking.Env Task Node Sol Gen Spaces.
Variable state : env_tasking.Env Task Node Sol Gen Spaces -> Obs.

Lemma Base_reset_problem_bad_shape ts ca solve rng
    (self : environments.Env Task Node Gen Spaces) :
  length ts ≠ environments.n_tasks self
  \/ length ca ≠ environments.n_ch self ->
  environments.reset_problem problem_gen (Some ts) (Some ca) solve rng self
  = (Raise ValueError, self).
Proof.
  intros H. unfold environments.reset_problem.
  destruct (Nat.eqb_spec (length ts) (environments.n_tasks self));
    simpl; [|done].
  destruct (Nat.eqb_spec (length ca) (environments.n_ch self));
    simpl; [|done].
  by destruct H.
Qed.

Lemma BaseTaskingEnv_reset_problem_bad_shape ts ca solve
    (self : env_tasking.Env Task Node Sol Gen Spaces) :
  length ts ≠ env_tasking.n_tasks self
  \/ length ca ≠ env_tasking.n_ch self ->
  env_tasking.reset_problem problem_gen' (Some ts) (Some ca) solve self
  = (Raise ValueError, self).
Proof.
  intros H. unfold env_tasking.reset_problem.
  destruct (Nat.eqb_spec (length ts) (env_tasking.n_tasks self));
    simpl; [|done].
  destruct (Nat.eqb_spec (length ca) (env_tasking.n_ch self));
    simpl; [|done].
  by destruct H.
Qed.

(** C7 (amended).  When both [tasks] and [ch_avail] are given and the
    length of [tasks] differs from [n_tasks] or the length of [ch_avail]
    from the number of channels, [Base.reset], and [BaseTaskingEnv.reset]
    called with [persist] false, raise [ValueError] and leave the
    environment, its node included, exactly as it was. *)
Theorem reset_bad_shape (ts : list Task) (ca : list pyfloat) :
  (forall solve rng (self : environments.Env Task Node Gen Spaces),
     length ts ≠ environments.n_tasks self
     \/ length ca ≠ environments.n_ch self ->
     environments.reset problem_gen ScheduleNode ScheduleNodeShift node_loss
       update_spaces obs (Some ts) (Some ca) solve rng self
     = (Raise ValueError, self))
  /\ (forall solve (self : env_tasking.Env Task Node Sol Gen Spaces),
     length ts ≠ env_tasking.n_tasks self
     \/ length ca ≠ env_tasking.n_ch self ->
     env_tasking.reset problem_gen' node_cls node_l_ex update_spaces' state
       (Some ts) (Some ca) false solve self
     = (Raise ValueError, self)).
Proof.
  split; intros.
  - unfold environments.reset.
    by rewrite Base_reset_problem_bad_shape.
  - unfold env_tasking.reset. cbn [negb].
    by rewrite BaseTaskingEnv_reset_problem_bad_shape.
Qed.
End reset_shape.

Lemma reset_bad_shape_witness :
  environments.reset (Obs := unit) unit_problem_gen_mdp
    unit_ScheduleNode unit_ScheduleNode (fun _ => Fin 0) (fun e => e)
    (fun _ => tt) (Some [tt]) (Some [Fin 0]) false None unit_env_mdp
  = (Raise ValueError, unit_env_mdp)
  /\ env_tasking.reset (Obs := unit) unit_problem_gen unit_node_cls
       (fun _ => Fin 0) (fun e => e) (fun _ => tt)
       (Some [tt; tt]) (Some [Fin 0; Fin 1]) false false unit_env
     = (Raise ValueError, unit_env).
Proof.
  destruct (reset_bad_shape (Obs := unit) (Spaces := unit) unit_problem_gen_mdp
              unit_ScheduleNode unit_ScheduleNode (fun _ => Fin 0)
              (fun e => e) (fun _ => tt)
              unit_problem_gen unit_node_cls (fun _ => Fin 0) (fun e => e)
              (fun _ => tt) [tt] [Fin 0]) as [Hmdp _].
  destruct (reset_bad_shape (Obs := unit) (Spaces := unit) unit_problem_gen_mdp
              unit_ScheduleNode unit_ScheduleNode (fun _ => Fin 0)
              (fun e => e) (fun _ => tt)
              unit_problem_gen unit_node_cls (fun _ => Fin 0) (fun e => e)
              (fun _ => tt) [tt; tt] [Fin 0; Fin 1]) as [_ Hpy].
  split.
  - apply Hmdp. left. simpl. lia.
  - apply Hpy. right. simpl. lia.
Defined.

(** C7, as stated, fails: with [persist] true, [BaseTaskingEnv.reset] does not
    look at its inputs; a task list of the wrong length raises nothing and the
    node is built anew from the problem stored before. *)
Lemma reset_persist_ignores_shape :
  length [tt] ≠ env_tasking.n_tasks unit_env
  /\ env_tasking.reset (Obs := unit) unit_problem_gen unit_node_cls
       (fun _ => Fin 0) (fun e => e) (fun _ => tt)
       (Some [tt]) (Some [Fin 0]) true false unit_env
     = (Ok tt,
        env_tasking.mkEnv 2 1 tt None (Some [tt; tt]) (Some [Fin 0])
          (Some tt) (Some (Fin 0)) tt).
Proof. split; [simpl; lia|reflexivity]. Qed.

(** * Further properties *)

(** ** The loss function from the release time on *)

Section loss_shape.
Local Open Scope Q_scope.





End loss_shape.

(** ** What [shift_origin] keeps, and what a raise leaves behind *)

Section shift64_more.
Import tasks64.
Local Open Scope float_scope.

(** X3.  Whenever [shift_origin] returns, the release time it leaves is at
    least [0].  If that is [0], the drop time is at least [0] too and the
    parameters pass the check of the setters, [l_drop < slope * t_drop]
    being false; otherwise [0] was returned and the drop time and [l_drop]
    are as they were. *)
Theorem shift_origin_keeps_ranges (T T' : ReluDrop) (t inc : float) :
  shift_origin t T = (Ok inc, T') ->
  (0 <=? t_release T') = true
  /\ ((t_release T' =? 0) = true ->
      (0 <=? t_drop T') = true
      /\ (l_drop T' <? slope T' * t_drop T') = false)
  /\ ((t_release T' =? 0) = false ->
      inc = 0 /\ t_drop T' = t_drop T /\ l_drop T' = l_drop T).
Proof.
  destruct T as [d r nm s td ld].
  unfold shift_origin, bind, get, set_t_release; simpl.
  destruct (pymax 0 (- (t - r)) =? 0) eqn:E0.
  - unfold t_drop_setter, l_drop_setter, bind, get, _check_non_decreasing,
      raise, ret, slope, t_drop, l_drop, set__t_drop, set__l_drop; simpl.
    destruct (ld <? s * pymax 0 (td - (t - r))) eqn:E1; [discriminate|].
    simpl.
    match goal with
    | |- context [if ?c then _ else _] => destruct c eqn:E2; [discriminate|]
    end.
    intros [= <- <-]; simpl. split; [apply pymax_nonneg|].
    split; [|by rewrite E0]. intros _. split; [apply pymax_nonneg|exact E2].
  - intros [= <- <-]; simpl. unfold ret; simpl.
    split; [apply pymax_nonneg|]. split; [by rewrite E0|]. done.
Qed.

Lemma shift_origin_keeps_ranges_witness :
  let T' := task None 1 0 2 3 8 in
  (0 <=? t_release T') = true
  /\ ((t_release T' =? 0) = true ->
      (0 <=? t_drop T') = true
      /\ (l_drop T' <? slope T' * t_drop T') = false)
  /\ ((t_release T' =? 0) = false ->
      2 = 0 /\ t_drop T' = t_drop (task None 1 2 2 4 10)
      /\ l_drop T' = l_drop (task None 1 2 2 4 10)).
Proof.
  apply (shift_origin_keeps_ranges (task None 1 2 2 4 10) (task None 1 0 2 3 8)
           3 2).
  reflexivity.
Defined.

(** X6.  A shift that raises is not undone.  When the shift reaches the
    release time, a failure of the check of the [t_drop] setter raises
    [ValueError] with the release time already set to its new value, and a
    failure of the check of the [l_drop] setter raises with the release
    time and the drop time already changed.  The comparisons are those the
    code makes, on rounded values. *)
Theorem shift_origin_raise_partial name d r s td ld t :
  let r' := pymax 0 (- (t - r)) in
  let td' := pymax 0 (td - (t - r)) in
  let inc := call (task name d r' s td ld) (t - r) in
  (r' =? 0) = true ->
  ((ld <? s * td') = true ->
     shift_origin t (task name d r s td ld)
     = (Raise ValueError, task name d r' s td ld))
  /\ ((ld <? s * td') = false -> (ld - inc <? s * td') = true ->
     shift_origin t (task name d r s td ld)
     = (Raise ValueError, task name d r' s td' ld)).
Proof.
  intros r' td' inc E0.
  unfold shift_origin, bind, get, set_t_release, task; simpl.
  fold r'. rewrite E0.
  unfold t_drop_setter, l_drop_setter, bind, get, _check_non_decreasing,
    raise, ret, slope, t_drop, l_drop, set__t_drop, set__l_drop; simpl.
  fold td'. split.
  - intros E1. by rewrite E1.
  - intros E1 E2. rewrite E1. simpl.
    unfold inc, task in E2. by rewrite E2.
Qed.

Lemma shift_origin_raise_partial_witness :
  shift_origin 1 (task None 1 0 2 4 3)
  = (Raise ValueError, task None 1 0 2 4 3)
  /\ shift_origin 0x1.999999999999ap-4
       (task None 1 0 0x1.999999999999ap-4 1 0x1.999999999999ap-4)
     = (Raise ValueError,
        task None 1 0 0x1.999999999999ap-4 0x1.ccccccccccccdp-1
          0x1.999999999999ap-4).
Proof.
  split.
  - apply (shift_origin_raise_partial None 1 0 2 4 3 1); reflexivity.
  - apply (shift_origin_raise_partial None 1 0 0x1.999999999999ap-4 1
             0x1.999999999999ap-4 0x1.999999999999ap-4); reflexivity.
Defined.
End shift64_more.

(** ** [nan] and the setters *)

(** X7.  The check of the setters cannot reject [nan]: assigning [nan] to [slope],
    [t_drop] or [l_drop] always succeeds, and on a task whose slope is [nan]
    every assignment to [t_drop] or [l_drop] succeeds. *)
Theorem setters_accept_nan (T : ReluDrop) (v : pyfloat) :
  fst (slope_setter NaN T) = Ok tt
  /\ fst (t_drop_setter NaN T) = Ok tt
  /\ fst (l_drop_setter NaN T) = Ok tt
  /\ slope (snd (slope_setter NaN T)) = NaN
  /\ fst (t_drop_setter v (snd (slope_setter NaN T))) = Ok tt
  /\ fst (l_drop_setter v (snd (slope_setter NaN T))) = Ok tt.
Proof.
  destruct T as [d r nm s td ld].
  unfold slope_setter, t_drop_setter, l_drop_setter, bind, get,
    _check_non_decreasing, slope, t_drop, l_drop.
  destruct s, td, ld, v; repeat split; reflexivity.
Qed.

(** ** More on the factorial-base encodings *)

Section encodings_more.
Import environments.
Local Open Scope Z_scope.
Implicit Types (l r s seq : list Z) (x n j : Z) (k m : nat).

Lemma list_index_Ok l x j :
  list_index x l = Ok j -> 0 <= j /\ l !! Z.to_nat j = Some x.
Proof.
  revert j. induction l as [|y l IH]; intros j; simpl; [done|].
  case_bool_decide as Hy.
  - intros [= <-]. by subst.
  - destruct (list_index x l) as [j'|e]; simpl; [|done].
    intros [= <-]. destruct (IH j' eq_refl) as [Hj' Hl].
    split; [lia|]. by replace (Z.to_nat (j' + 1)) with (S (Z.to_nat j')) by lia.
Qed.

Lemma list_index_Raise l x e : list_index x l = Raise e -> e = ValueError.
Proof.
  induction l as [|y l IH]; simpl; [by intros [= <-]|].
  case_bool_decide; [done|].
  destruct (list_index x l); simpl; [done|]. intros [= <-]. by apply IH.
Qed.

Lemma list_remove_Ok l x l' : list_remove x l = Ok l' -> l ≡ₚ x :: l'.
Proof.
  revert l'. induction l as [|y l IH]; intros l'; simpl; [done|].
  case_bool_decide as Hy.
  - intros [= <-]. by subst.
  - destruct (list_remove x l) as [r|e]; simpl; [|done].
    intros [= <-]. rewrite (IH r eq_refl). apply Permutation_swap.
Qed.

Lemma list_remove_Raise l x e : list_remove x l = Raise e -> e = ValueError.
Proof.
  induction l as [|y l IH]; simpl; [by intros [= <-]|].
  case_bool_decide; [done|].
  destruct (list_remove x l); simpl; [done|]. intros [= <-]. by apply IH.
Qed.

Lemma factorial_Raise n e : factorial n = Raise e -> e = ValueError.
Proof. unfold factorial. case_match; [by intros [= <-]|done]. Qed.

(** Whatever the loop of [seq_to_int] raises is a [ValueError], and what it
    encodes without raising is drawn from the remaining elements. *)
Lemma seq_to_int_loop_Raise L s : forall i r num e,
  seq_to_int_loop L i s r num = Raise e -> e = ValueError.
Proof.
  induction s as [|x s IH]; intros i r num e; simpl; [done|].
  destruct (list_index x r) as [j|e1] eqn:Hj; simpl;
    [|intros [= <-]; by eapply list_index_Raise].
  destruct (factorial _) as [f|e2] eqn:Hf; simpl;
    [|intros [= <-]; by eapply factorial_Raise].
  destruct (list_remove x r) as [r'|e3] eqn:Hr; simpl;
    [|intros [= <-]; by eapply list_remove_Raise].
  apply IH.
Qed.

Lemma seq_to_int_loop_Ok L s : forall i r num c,
  seq_to_int_loop L i s r num = Ok c -> s ⊆+ r.
Proof.
  induction s as [|x s IH]; intros i r num c; simpl.
  - intros _. apply submseteq_nil_l.
  - destruct (list_index x r) as [j|e1]; simpl; [|done].
    destruct (factorial _) as [f|e2]; simpl; [|done].
    destruct (list_remove x r) as [r'|e3] eqn:Hr; simpl; [|done].
    intros Hloop. rewrite (list_remove_Ok _ _ _ Hr).
    apply submseteq_skip. by eapply IH.
Qed.

(** X8.  [check_input] does not change what [seq_to_int] does: a sequence that is
    not a permutation of [range(len(seq))] raises [ValueError] with the check
    off as well, from [index], and a permutation gets the same number. *)
Theorem seq_to_int_check_redundant seq :
  seq_to_int seq false = seq_to_int seq true.
Proof.
  destruct (decide (seq ≡ₚ range (Z.of_nat (length seq)))) as [Hperm|Hperm].
  - by rewrite !(seq_to_int_unfold seq _ (length seq) Hperm).
  - assert (seq_to_int seq true = Raise ValueError) as ->.
    { unfold seq_to_int. rewrite bool_decide_eq_true_2; [done|].
      intros Heq. by apply Hperm, set_test_permutation. }
    unfold seq_to_int. simpl.
    destruct (seq_to_int_loop _ _ _ _ _) as [c|e] eqn:Hloop.
    + exfalso. apply Hperm. apply seq_to_int_loop_Ok in Hloop.
      apply submseteq_length_Permutation; [done|].
      by rewrite length_range.
    + f_equal. by eapply seq_to_int_loop_Raise.
Qed.

(** *** Numbers outside the range, unchecked *)

Lemma range_lookup m k : (k < m)%nat -> range (Z.of_nat m) !! k = Some (Z.of_nat k).
Proof.
  intros Hk. rewrite range_of_nat, list_lookup_fmap, lookup_seq_lt by done.
  done.
Qed.

Lemma list_pop_out_of_range i l :
  i < - Z.of_nat (length l) \/ Z.of_nat (length l) <= i ->
  list_pop i l = Raise IndexError.
Proof.
  intros Hi. unfold list_pop.
  destruct (Z.ltb_spec i 0).
  - destruct (Z.leb_spec 0 (i + Z.of_nat (length l))); [lia|done].
  - destruct (Z.leb_spec 0 i); [|lia].
    destruct (Z.ltb_spec i (Z.of_nat (length l))); [lia|done].
Qed.

Lemma list_pop_negative i l :
  - Z.of_nat (length l) <= i < 0 ->
  list_pop i l = list_pop (i + Z.of_nat (length l)) l.
Proof.
  intros Hi. unfold list_pop.
  destruct (Z.ltb_spec i 0); [|lia].
  destruct (Z.ltb_spec (i + Z.of_nat (length l)) 0); [lia|done].
Qed.

(** X9.  With the check off, [int_to_seq] on a non-empty range raises
    [IndexError], from [pop], for every number from [factorial(length)] up
    and every number below [-factorial(length)], as long as the index handed
    to [pop], [num // factorial(length - 1)], is one that [pop] takes: at
    least [-2^63] and below [2^63]. *)
Theorem int_to_seq_unchecked_IndexError (m : nat) num :
  num < - Z.of_nat (fact (S m)) \/ Z.of_nat (fact (S m)) <= num ->
  - 2 ^ 63 <= num / Z.of_nat (fact m) < 2 ^ 63 ->
  int_to_seq num (Z.of_nat (S m)) false = Some (Raise IndexError).
Proof.
  intros Hnum _. unfold int_to_seq. rewrite length_range.
  cbn [int_to_seq_loop]. rewrite length_range.
  destruct (Z.ltb_spec 0 (Z.of_nat (S m))); [|lia].
  replace (Z.of_nat (S m) - 1) with (Z.of_nat m) by lia.
  rewrite factorial_of_nat. cbv zeta.
  pose proof (fact_pos_Z m) as Hpos. rewrite fact_succ_Z in Hnum.
  rewrite list_pop_out_of_range; [done|]. rewrite length_range.
  destruct Hnum as [Hlo|Hhi].
  - left. apply Z.div_lt_upper_bound; nia.
  - right. apply Z.div_le_lower_bound; nia.
Qed.

Lemma int_to_seq_unchecked_IndexError_witness :
  int_to_seq 6 3 false = Some (Raise IndexError)
  /\ int_to_seq (-7) 3 false = Some (Raise IndexError).
Proof.
  split.
  - apply (int_to_seq_unchecked_IndexError 2 6); [right; simpl; lia|].
    vm_compute. split; [discriminate|reflexivity].
  - apply (int_to_seq_unchecked_IndexError 2 (-7)); [left; simpl; lia|].
    vm_compute. split; [discriminate|reflexivity].
Defined.

(** X10.  With the check off, a negative number down to [-factorial(length)] is
    decoded, [pop] counting from the end: the result is the permutation that
    [num + factorial(length)] stands for. *)
Theorem int_to_seq_unchecked_negative (m : nat) num :
  - Z.of_nat (fact m) <= num < 0 ->
  exists seq,
    int_to_seq num (Z.of_nat m) false = Some (Ok seq)
    /\ int_to_seq (num + Z.of_nat (fact m)) (Z.of_nat m) true = Some (Ok seq)
    /\ seq ≡ₚ range (Z.of_nat m).
Proof.
  intros Hnum.
  destruct (int_to_seq_then_seq_to_int m true true (num + Z.of_nat (fact m)))
    as (seq & Hdec & Hperm & _); [lia|].
  exists seq. split; [|done].
  rewrite <- Hdec.
  rewrite (int_to_seq_unfold (num + Z.of_nat (fact m)) true m) by lia.
  unfold int_to_seq. rewrite length_range.
  destruct m as [|m]; [done|].
  cbn [int_to_seq_loop]. rewrite length_range.
  destruct (Z.ltb_spec 0 (Z.of_nat (S m))); [|lia].
  replace (Z.of_nat (S m) - 1) with (Z.of_nat m) by lia.
  rewrite factorial_of_nat. cbv zeta.
  pose proof (fact_pos_Z m) as Hpos. rewrite fact_succ_Z in *.
  rewrite Z.div_add, Z.mod_add by lia.
  rewrite list_pop_negative; [by rewrite length_range|].
  rewrite length_range. split.
  - apply Z.div_le_lower_bound; nia.
  - apply Z.div_lt_upper_bound; nia.
Qed.

Lemma int_to_seq_unchecked_negative_witness :
  exists seq,
    int_to_seq (-1) 3 false = Some (Ok seq)
    /\ int_to_seq (-1 + 6) 3 true = Some (Ok seq)
    /\ seq ≡ₚ range 3.
Proof. apply (int_to_seq_unchecked_negative 3 (-1)). simpl. lia. Defined.

(** *** The first and the last code *)

Lemma seq_to_int_loop_same L r : forall i num,
  L - i = Z.of_nat (length r) -> seq_to_int_loop L i r r num = Ok num.
Proof.
  induction r as [|x r IH]; intros i num HL; [done|].
  cbn [seq_to_int_loop list_index list_remove].
  rewrite !bool_decide_eq_true_2 by done. simpl.
  replace (L - 1 - i) with (Z.of_nat (length r)) by (simpl in HL; lia).
  rewrite factorial_of_nat. simpl.
  replace (num + 0 * Z.of_nat (fact (length r))) with num by lia.
  apply IH. simpl in HL. lia.
Qed.

(** X11.  The identity permutation is number [0], in both directions. *)
Theorem identity_is_zero (m : nat) (b : bool) :
  seq_to_int (range (Z.of_nat m)) b = Ok 0
  /\ int_to_seq 0 (Z.of_nat m) b = Some (Ok (range (Z.of_nat m))).
Proof.
  assert (seq_to_int (range (Z.of_nat m)) b = Ok 0) as Henc.
  { rewrite (seq_to_int_unfold _ b m) by done.
    apply seq_to_int_loop_same. rewrite length_range. lia. }
  split; [done|].
  destruct (seq_to_int_then_int_to_seq m b b (range (Z.of_nat m)))
    as (num & Hnum & _ & Hdec); [done|].
  rewrite Henc in Hnum. by injection Hnum as <-.
Qed.

Lemma seq_to_int_loop_reverse L r : forall i num,
  NoDup r -> L - i = Z.of_nat (length r) ->
  seq_to_int_loop L i (reverse r) r num
  = Ok (num + Z.of_nat (fact (length r)) - 1).
Proof.
  induction r as [|x r IH] using rev_ind; intros i num Hnd HL.
  - simpl. f_equal. lia.
  - rewrite reverse_snoc.
    assert (length (r ++ [x]) = S (length r)) as Hlen
      by (rewrite length_app; simpl; lia).
    rewrite Hlen in *.
    assert ((r ++ [x]) !! length r = Some x) as Hk.
    { by rewrite lookup_app_r, Nat.sub_diag by lia. }
    rewrite (seq_to_int_loop_step L i x (reverse r) (r ++ [x])
               (length r) (length r)) by done.
    replace (delete (length r) (r ++ [x])) with r.
    2:{ by rewrite delete_middle, app_nil_r. }
    apply NoDup_app in Hnd as (Hnd & _ & _).
    rewrite IH by (done || lia). f_equal.
    rewrite fact_succ_Z. lia.
Qed.

(** X12.  The reversed range is the last number, [factorial(length) - 1], in both
    directions. *)
Theorem reverse_is_last (m : nat) (b : bool) :
  seq_to_int (reverse (range (Z.of_nat m))) b = Ok (Z.of_nat (fact m) - 1)
  /\ int_to_seq (Z.of_nat (fact m) - 1) (Z.of_nat m) b
     = Some (Ok (reverse (range (Z.of_nat m)))).
Proof.
  assert (reverse (range (Z.of_nat m)) ≡ₚ range (Z.of_nat m)) as Hperm
    by apply reverse_Permutation.
  assert (seq_to_int (reverse (range (Z.of_nat m))) b
          = Ok (Z.of_nat (fact m) - 1)) as Henc.
  { rewrite (seq_to_int_unfold _ b m) by done.
    rewrite seq_to_int_loop_reverse;
      [|apply NoDup_range|rewrite length_range; lia].
    rewrite length_range. f_equal. }
  split; [done|].
  destruct (seq_to_int_then_int_to_seq m b b _ Hperm)
    as (num & Hnum & _ & Hdec).
  rewrite Henc in Hnum. by injection Hnum as <-.
Qed.

(** *** The encoding follows the lexicographic order *)

Lemma increasing_range m : increasing (range (Z.of_nat m)).
Proof.
  intros k k' x x' Hlt Hk Hk'.
  pose proof (lookup_lt_Some _ _ _ Hk) as Hkm.
  pose proof (lookup_lt_Some _ _ _ Hk') as Hkm'.
  rewrite length_range in *.
  rewrite range_lookup in Hk, Hk' by done.
  injection Hk as <-. injection Hk' as <-. lia.
Qed.

Lemma increasing_NoDup r : increasing r -> NoDup r.
Proof.
  intros Hinc. apply NoDup_alt. intros i j x Hi Hj.
  destruct (Nat.lt_trichotomy i j) as [Hlt|[?|Hlt]]; [|done|].
  - pose proof (Hinc _ _ _ _ Hlt Hi Hj). lia.
  - pose proof (Hinc _ _ _ _ Hlt Hj Hi). lia.
Qed.

Lemma increasing_delete r (p : nat) :
  increasing r -> increasing (delete p r).
Proof.
  intros Hinc k k' x x' Hlt Hk Hk'.
  destruct (decide (k < p)%nat); destruct (decide (k' < p)%nat).
  - rewrite list_lookup_delete_lt in Hk, Hk' by lia.
    exact (Hinc _ _ _ _ Hlt Hk Hk').
  - rewrite list_lookup_delete_lt in Hk by lia.
    rewrite list_lookup_delete_ge in Hk' by lia.
    apply (Hinc k (S k') x x'); [lia|done|done].
  - lia.
  - rewrite list_lookup_delete_ge in Hk, Hk' by lia.
    apply (Hinc (S k) (S k') x x'); [lia|done|done].
Qed.

Lemma increasing_lookup_lt r k k' x x' :
  increasing r -> r !! k = Some x -> r !! k' = Some x' -> x < x' ->
  (k < k')%nat.
Proof.
  intros Hinc Hk Hk' Hlt.
  destruct (Nat.lt_trichotomy k k') as [?|[->|Hgt]]; [done|..].
  - rewrite Hk in Hk'. injection Hk' as ->. lia.
  - pose proof (Hinc _ _ _ _ Hgt Hk' Hk). lia.
Qed.

Lemma seq_to_int_loop_lex s1 : forall s2 r L i num c1 c2,
  increasing r -> s1 ≡ₚ r -> s2 ≡ₚ r -> L - i = Z.of_nat (length r) ->
  seq_to_int_loop L i s1 r num = Ok c1 ->
  seq_to_int_loop L i s2 r num = Ok c2 ->
  lex_lt s1 s2 -> c1 < c2.
Proof.
  induction s1 as [|x1 s1 IH]; intros s2 r L i num c1 c2 Hinc Hp1 Hp2 HL H1 H2 Hlex.
  { apply Permutation_nil_l in Hp1 as <-.
    apply Permutation_nil_r in Hp2 as ->. done. }
  destruct s2 as [|x2 s2]; [done|].
  pose proof (increasing_NoDup r Hinc) as Hnd.
  assert (x1 ∈ r) as Hx1 by (rewrite <- Hp1; left).
  assert (x2 ∈ r) as Hx2 by (rewrite <- Hp2; left).
  apply list_elem_of_lookup_1 in Hx1 as [k1 Hk1].
  apply list_elem_of_lookup_1 in Hx2 as [k2 Hk2].
  pose proof (length_delete_lookup _ _ _ Hk1) as Hlen1.
  pose proof (length_delete_lookup _ _ _ Hk2) as Hlen2.
  set (m := length (delete k1 r)) in *.
  assert (length (delete k2 r) = m) as Hm2 by lia.
  assert (s1 ≡ₚ delete k1 r) as Hp1'.
  { rewrite (delete_Permutation r k1 x1 Hk1) in Hp1.
    by apply Permutation_cons_inv in Hp1. }
  assert (s2 ≡ₚ delete k2 r) as Hp2'.
  { rewrite (delete_Permutation r k2 x2 Hk2) in Hp2.
    by apply Permutation_cons_inv in Hp2. }
  rewrite (seq_to_int_loop_step L i x1 s1 r k1 m) in H1 by (done || lia).
  rewrite (seq_to_int_loop_step L i x2 s2 r k2 m) in H2 by (done || lia).
  destruct Hlex as [Hlt|[-> Hlex]].
  - pose proof (increasing_lookup_lt _ _ _ _ _ Hinc Hk1 Hk2 Hlt) as Hk.
    destruct (encode_then_decode s1 (delete k1 r))
      as (d1 & Hd1 & Henc1 & _); [by eapply NoDup_delete_lookup|done|].
    destruct (encode_then_decode s2 (delete k2 r))
      as (d2 & Hd2 & Henc2 & _); [by eapply NoDup_delete_lookup|done|].
    rewrite Henc1 in H1 by (fold m; lia).
    rewrite Henc2 in H2 by lia.
    injection H1 as <-. injection H2 as <-.
    fold m in Hd1. rewrite Hm2 in Hd2. nia.
  - assert (k1 = k2) as -> by (by eapply NoDup_lookup).
    eapply (IH s2 (delete k2 r)); [by apply increasing_delete|done..| |done|done|done].
    fold m. lia.
Qed.

Lemma lex_lt_total s1 : forall s2,
  length s1 = length s2 -> lex_lt s1 s2 \/ s1 = s2 \/ lex_lt s2 s1.
Proof.
  induction s1 as [|x1 s1 IH]; intros [|x2 s2] Hlen; simplify_eq/=; [by auto|].
  destruct (Z.lt_trichotomy x1 x2) as [?|[->|?]]; [by auto| |by auto].
  destruct (IH s2) as [?|[->|?]]; [lia|by auto..].
Qed.

(** X13.  [seq_to_int] is an order isomorphism from the permutations of
    [range(m)] in lexicographic order to the numbers: one permutation comes
    before another exactly when its number is smaller, so [int_to_seq] lists
    the permutations in lexicographic order. *)
Theorem seq_to_int_lexicographic (m : nat) (b : bool) s1 s2 c1 c2 :
  s1 ≡ₚ range (Z.of_nat m) -> s2 ≡ₚ range (Z.of_nat m) ->
  seq_to_int s1 b = Ok c1 -> seq_to_int s2 b = Ok c2 ->
  (lex_lt s1 s2 <-> c1 < c2).
Proof.
  intros Hp1 Hp2 H1 H2.
  rewrite (seq_to_int_unfold s1 b m Hp1) in H1.
  rewrite (seq_to_int_unfold s2 b m Hp2) in H2.
  assert (forall t1 t2 d1 d2,
    t1 ≡ₚ range (Z.of_nat m) -> t2 ≡ₚ range (Z.of_nat m) ->
    seq_to_int_loop (Z.of_nat m) 0 t1 (range (Z.of_nat m)) 0 = Ok d1 ->
    seq_to_int_loop (Z.of_nat m) 0 t2 (range (Z.of_nat m)) 0 = Ok d2 ->
    lex_lt t1 t2 -> d1 < d2) as Hlt.
  { intros t1 t2 d1 d2 Ht1 Ht2 Hd1 Hd2.
    apply (seq_to_int_loop_lex t1 t2 (range (Z.of_nat m)) (Z.of_nat m) 0 0 d1 d2);
      [apply increasing_range|done|done|rewrite length_range; lia|done|done]. }
  split; [by eapply Hlt|].
  intros Hc.
  destruct (lex_lt_total s1 s2) as [?|[->|Hgt]]; [|done| |].
  - by rewrite (Permutation_length Hp1), (Permutation_length Hp2).
  - rewrite H1 in H2. injection H2 as ->. lia.
  - pose proof (Hlt s2 s1 c2 c1 Hp2 Hp1 H2 H1 Hgt). lia.
Qed.

Lemma permutation_120 : [1; 2; 0] ≡ₚ range 3.
Proof.
  change (range 3) with [0; 1; 2].
  etrans; [|apply Permutation_swap]. apply perm_skip, Permutation_swap.
Qed.

Lemma seq_to_int_lexicographic_witness :
  lex_lt [1; 2; 0] [2; 0; 1] <-> 3 < 4.
Proof.
  apply (seq_to_int_lexicographic 3 true [1; 2; 0] [2; 0; 1] 3 4).
  - apply permutation_120.
  - apply permutation_201.
  - vm_compute. reflexivity.
  - vm_compute. reflexivity.
Defined.
End encodings_more.

(** ** [PermutedTasks._gen_solution] *)

Section PermutedTasks_facts.
Import scheduling_problems.
Context {Task T_ex Ch_ex T_run : Type} `{EqDecision Task}.
Implicit Types (l : list (option Task)) (ts fixed : list Task) (idx : list nat).


Lemma index_task_Ok (t : Task) l i :
  index_task t l = Ok i -> l !! i = Some (Some t).
Proof.
  revert i. induction l as [|o l IH]; intros i; simpl; [done|].
  case_bool_decide as Ho; [by intros [= <-]; subst|].
  destruct (index_task t l) as [i'|e]; simpl; [|done].
  intros [= <-]. by apply IH.
Qed.

Lemma index_task_Raise (t : Task) l e :
  index_task t l = Raise e -> e = ValueError /\ Some t ∉ l.
Proof.
  induction l as [|o l IH]; simpl.
  - intros [= <-]. split; [done|]. by intros ?%elem_of_nil.
  - case_bool_decide as Ho; [done|].
    destruct (index_task t l) as [i'|e']; simpl; [done|].
    intros [= <-]. destruct (IH eq_refl) as [-> Hnot]. split; [done|].
    intros [?|?]%elem_of_cons; [by subst|done].
Qed.

Lemma live_elem_of (t : Task) l : t ∈ omap id l <-> Some t ∈ l.
Proof.
  split.
  - intros ([t'|] & Hin & [= ->])%list_elem_of_omap. done.
  - intros Hin. apply list_elem_of_omap. by exists (Some t).
Qed.

Lemma live_insert_None (t : Task) l i :
  l !! i = Some (Some t) -> omap id l ≡ₚ t :: omap id (<[i:=None]> l).
Proof.
  revert i. induction l as [|o l IH]; intros [|i] Hi; simplify_eq/=; [done|].
  specialize (IH i Hi).
  destruct o; csimpl; rewrite IH; [apply Permutation_swap|done].
Qed.

(** The loop finds an index for each task as long as the tasks are among
    the ones still unused, each as often as it is asked for. *)
Lemma permutation_indices_loop_Ok ts : forall l idx,
  ts ⊆+ omap id l ->
  exists idx',
    permutation_indices_loop ts l idx = Ok (idx ++ idx')
    /\ length idx' = length ts
    /\ NoDup idx'
    /\ forall j i, idx' !! j = Some i ->
         exists t, ts !! j = Some t /\ l !! i = Some (Some t).
Proof.
  induction ts as [|t ts IH]; intros l idx Hsub; simpl.
  - exists []. rewrite app_nil_r. repeat split; [constructor|].
    intros j i. by rewrite lookup_nil.
  - assert (Some t ∈ l) as Hin.
    { apply live_elem_of. eapply elem_of_submseteq; [|done]. left. }
    destruct (index_task t l) as [i|e] eqn:Hidx; simpl.
    2:{ by apply index_task_Raise in Hidx as [_ ?]. }
    apply index_task_Ok in Hidx.
    destruct (IH (<[i:=None]> l) (idx ++ [i])) as (idx' & -> & Hlen & Hnd & Hidx').
    { rewrite (live_insert_None t l i Hidx) in Hsub.
      by apply submseteq_app_inv_l with [t]. }
    exists (i :: idx'). rewrite <- app_assoc. simpl.
    repeat split; [by rewrite Hlen| |].
    + apply NoDup_cons. split; [|done].
      intros [j Hj]%list_elem_of_lookup_1.
      destruct (Hidx' _ _ Hj) as (t' & _ & Hl).
      by rewrite list_lookup_insert_eq in Hl by (by eapply lookup_lt_Some).
    + intros [|j] i' Hj; simplify_eq/=; [by exists t|].
      destruct (Hidx' _ _ Hj) as (t' & Ht' & Hl). exists t'. split; [done|].
      destruct (decide (i = i')) as [->|Hne].
      * by rewrite list_lookup_insert_eq in Hl by (by eapply lookup_lt_Some).
      * by rewrite list_lookup_insert_ne in Hl.
Qed.

Lemma permutation_indices_loop_Raise ts : forall l idx,
  ~ ts ⊆+ omap id l ->
  permutation_indices_loop ts l idx = Raise ValueError.
Proof.
  induction ts as [|t ts IH]; intros l idx Hsub; simpl.
  - destruct Hsub. apply submseteq_nil_l.
  - destruct (index_task t l) as [i|e] eqn:Hidx; simpl.
    + apply index_task_Ok in Hidx. apply IH. intros Hsub'. apply Hsub.
      rewrite (live_insert_None t l i Hidx). by apply submseteq_skip.
    + by apply index_task_Raise in Hidx as [-> _].
Qed.

Lemma live_fmap_Some fixed : omap id (Some <$> fixed) = fixed.
Proof. induction fixed as [|t fixed IH]; csimpl; [done|]. by rewrite IH. Qed.

Lemma take_indices_Ok {A} (a : list A) idx :
  Forall (fun i => (i < length a)%nat) idx ->
  exists t,
    take_indices a idx = Ok t
    /\ length t = length idx
    /\ forall j i, idx !! j = Some i -> t !! j = a !! i.
Proof.
  induction idx as [|i idx IH]; intros Hall; simpl.
  - exists []. repeat split. intros j i. by rewrite lookup_nil.
  - apply Forall_cons in Hall as [Hi Hall].
    destruct (lookup_lt_is_Some_2 a i Hi) as [x Hx]. rewrite Hx.
    destruct (IH Hall) as (t & -> & Hlen & Ht). simpl.
    exists (x :: t). repeat split; [simpl; by rewrite Hlen|].
    intros [|j] i' Hj; simplify_eq/=; [done|by apply Ht].
Qed.

(** X14.  For a problem whose tasks are the fixed tasks in another order,
    [PermutedTasks._gen_solution] finds a permutation [idx] of the positions
    of the fixed tasks under which every task of the problem equals the fixed
    task at its index, and returns the fixed schedule read through [idx]:
    each task gets the time and the channel of a fixed task equal to it, and
    no entry of the fixed schedule is used twice. *)
Theorem PermutedTasks_gen_solution_permutes fixed ts
    (t_ex : list T_ex) (ch_ex : list Ch_ex) (t_run : T_run) :
  ts ≡ₚ fixed -> length t_ex = length fixed -> length ch_ex = length fixed ->
  exists idx t c,
    permutation_indices fixed ts = Ok idx
    /\ PermutedTasks_gen_solution fixed t_ex ch_ex t_run ts = Ok (t, c, t_run)
    /\ idx ≡ₚ seq 0 (length fixed)
    /\ forall j i, idx !! j = Some i ->
         fixed !! i = ts !! j /\ t !! j = t_ex !! i /\ c !! j = ch_ex !! i.
Proof.
  intros Hperm Ht Hc.
  destruct (permutation_indices_loop_Ok ts (Some <$> fixed) [])
    as (idx & Hidx & Hlen & Hnd & Hfix).
  { rewrite live_fmap_Some. by rewrite Hperm. }
  simpl in Hidx.
  assert (forall j i, idx !! j = Some i ->
            (i < length fixed)%nat /\ fixed !! i = ts !! j) as Hfix'.
  { intros j i Hj. destruct (Hfix j i Hj) as (t & Hts & Hl).
    rewrite list_lookup_fmap in Hl.
    destruct (fixed !! i) as [t'|] eqn:Hi; simplify_eq/=.
    split; [by eapply lookup_lt_Some|done]. }
  assert (Forall (fun i => (i < length fixed)%nat) idx) as Hall.
  { apply Forall_lookup. intros j i Hj. by apply (Hfix' j i). }
  destruct (take_indices_Ok t_ex idx) as (t & Et & _ & Htl); [by rewrite Ht|].
  destruct (take_indices_Ok ch_ex idx) as (c & Ec & _ & Hcl); [by rewrite Hc|].
  exists idx, t, c. unfold PermutedTasks_gen_solution, permutation_indices.
  rewrite Hidx. csimpl. rewrite Et. csimpl. rewrite Ec. csimpl.
  repeat split; try done.
  - apply submseteq_length_Permutation.
    + apply NoDup_submseteq; [done|]. intros i [j Hj]%list_elem_of_lookup_1.
      apply elem_of_seq. destruct (Hfix' j i Hj). lia.
    + rewrite length_seq, Hlen. by rewrite (Permutation_length Hperm).
  - by apply (Hfix' j i).
  - by apply Htl.
  - by apply Hcl.
Qed.

(** X15.  [PermutedTasks._gen_solution] raises [ValueError], from [index], exactly
    when the problem has a task that is not among the fixed tasks, or has one
    more often than they do; otherwise the indices are found. *)
Theorem PermutedTasks_gen_solution_ValueError fixed ts
    (t_ex : list T_ex) (ch_ex : list Ch_ex) (t_run : T_run) :
  (~ ts ⊆+ fixed ->
     PermutedTasks_gen_solution fixed t_ex ch_ex t_run ts = Raise ValueError)
  /\ (ts ⊆+ fixed -> exists idx, permutation_indices fixed ts = Ok idx).
Proof.
  split; intros Hsub.
  - unfold PermutedTasks_gen_solution, permutation_indices.
    rewrite permutation_indices_loop_Raise; [done|].
    by rewrite live_fmap_Some.
  - destruct (permutation_indices_loop_Ok ts (Some <$> fixed) [])
      as (idx & Hidx & _); [by rewrite live_fmap_Some|].
    by exists idx.
Qed.
End PermutedTasks_facts.

Lemma PermutedTasks_gen_solution_permutes_witness :
  exists idx t c,
    scheduling_problems.permutation_indices [5; 7; 5]%Z [7; 5; 5]%Z = Ok idx
    /\ scheduling_problems.PermutedTasks_gen_solution [5; 7; 5]%Z
         [10; 20; 30]%Z [0; 1; 0]%Z tt [7; 5; 5]%Z = Ok (t, c, tt)
    /\ idx ≡ₚ seq 0 (length [5; 7; 5]%Z)
    /\ forall j i, idx !! j = Some i ->
         [5; 7; 5]%Z !! i = [7; 5; 5]%Z !! j
         /\ t !! j = [10; 20; 30]%Z !! i /\ c !! j = [0; 1; 0]%Z !! i.
Proof.
  apply (PermutedTasks_gen_solution_permutes [5; 7; 5]%Z [7; 5; 5]%Z).
  - apply Permutation_swap.
  - reflexivity.
  - reflexivity.
Defined.

Lemma PermutedTasks_gen_solution_ValueError_witness :
  scheduling_problems.PermutedTasks_gen_solution [5; 7]%Z
    [10; 20]%Z [0; 1]%Z tt [5; 5]%Z = Raise ValueError
  /\ exists idx, scheduling_problems.permutation_indices [5; 7]%Z [7]%Z = Ok idx.
Proof.
  destruct (PermutedTasks_gen_solution_ValueError [5; 7]%Z [5; 5]%Z
              [10; 20]%Z [0; 1]%Z tt) as [Hbad _].
  destruct (PermutedTasks_gen_solution_ValueError [5; 7]%Z [7]%Z
              [10; 20]%Z [0; 1]%Z tt) as [_ Hgood].
  split.
  - apply Hbad. by apply (bool_decide_unpack _).
  - apply Hgood. by apply (bool_decide_unpack _).
Defined.

(** ** [Dataset] *)

Section deque_facts.
Import scheduling_problems.
Context {A : Type}.
Implicit Types (d l : list A).

Lemma extendleft_reverse l d : extendleft (reverse l) d = l ++ d.
Proof.
  unfold extendleft. revert d.
  induction l as [|x l IH] using rev_ind; intros d; [done|].
  rewrite reverse_snoc. simpl. rewrite IH. by rewrite <- app_assoc.
Qed.

Lemma deque_pop_snoc d x : deque_pop (d ++ [x]) = Ok (x, d).
Proof.
  induction d as [|y d IH]; [done|].
  change ((y :: d) ++ [x]) with (y :: (d ++ [x])).
  cbn [deque_pop]. rewrite IH.
  by destruct (d ++ [x]) eqn:E; [destruct d; simplify_eq/=|].
Qed.

Lemma deque_pop_Ok d x d' : deque_pop d = Ok (x, d') -> d = d' ++ [x].
Proof.
  destruct d as [|y d _] using rev_ind; [done|].
  rewrite deque_pop_snoc. by intros [= <- <-].
Qed.
End deque_facts.

Section Dataset_facts.
Import scheduling_problems.
Context {Task Sol : Type}.
Variable branch_bound : SchedulingProblem Task -> Sol.
Implicit Types (self : Dataset Task Sol)
  (zs : list (SchedulingProblem Task * option Sol))
  (ps : list (SchedulingProblem Task)).

(** One draw from a dataset that holds [zs ++ [z]]: the rightmost pair is
    yielded; it is dropped, or under [repeat] put back on the left with its
    solution. *)
Lemma gen_one_holds solve self zs z :
  dataset_holds self (zs ++ [z]) ->
  exists self',
    gen_one branch_bound solve self
    = (Ok (dataset_item branch_bound solve z), self')
    /\ repeat self' = repeat self
    /\ dataset_holds self'
         (if repeat self then dataset_stored branch_bound solve z :: zs else zs).
Proof.
  destruct z as [p o]. intros [Hp Hs].
  rewrite fmap_app in Hp. rewrite fmap_app in Hs. simpl in Hp, Hs.
  unfold gen_one, _gen_problem. rewrite Hp, length_app. simpl.
  replace (length zs.*1 + 1 =? 0)%nat with false
    by (symmetry; apply Nat.eqb_neq; lia).
  rewrite deque_pop_snoc. simpl. rewrite Hs, deque_pop_snoc. simpl.
  unfold dataset_item, dataset_stored, dataset_holds, _gen_solution; simpl.
  destruct (repeat self) eqn:Hrep, solve, o as [s|]; simpl;
    rewrite ?Hrep; simpl;
    eexists; (split; [reflexivity|]); simpl; done.
Qed.

Lemma gen_one_empty solve self :
  problems self = [] ->
  gen_one branch_bound solve self = (Raise ValueError, self).
Proof. intros Hp. unfold gen_one, _gen_problem. by rewrite Hp. Qed.

(** A run of draws without [repeat]: the pairs on the right are yielded,
    the rightmost first, and the others are left. *)
Lemma call_holds_once solve back : forall self front,
  repeat self = false -> dataset_holds self (front ++ back) ->
  exists self',
    call branch_bound (length back) solve self
    = (reverse (dataset_item branch_bound solve <$> back), None, self')
    /\ repeat self' = false /\ dataset_holds self' front.
Proof.
  induction back as [|z back IH] using rev_ind; intros self front Hrep Hh.
  - rewrite app_nil_r in Hh. by exists self.
  - rewrite app_assoc in Hh.
    destruct (gen_one_holds solve self _ z Hh) as (self1 & E1 & Hrep1 & Hh1).
    rewrite Hrep in Hh1, Hrep1.
    destruct (IH self1 front Hrep1 Hh1) as (self2 & E2 & Hrep2 & Hh2).
    exists self2. rewrite length_app, Nat.add_comm. simpl.
    rewrite E1, E2. by rewrite fmap_app, reverse_app.
Qed.

(** A run of draws under [repeat]: the same pairs are yielded, and those
    drawn are put on the left, in their order, with their solutions. *)
Lemma call_holds_repeat solve back : forall self front,
  repeat self = true -> dataset_holds self (front ++ back) ->
  exists self',
    call branch_bound (length back) solve self
    = (reverse (dataset_item branch_bound solve <$> back), None, self')
    /\ repeat self' = true
    /\ dataset_holds self'
         ((dataset_stored branch_bound solve <$> back) ++ front).
Proof.
  induction back as [|z back IH] using rev_ind; intros self front Hrep Hh.
  - rewrite app_nil_r in Hh. by exists self.
  - rewrite app_assoc in Hh.
    destruct (gen_one_holds solve self _ z Hh) as (self1 & E1 & Hrep1 & Hh1).
    rewrite Hrep in Hh1, Hrep1.
    destruct (IH self1 (dataset_stored branch_bound solve z :: front)
                Hrep1 Hh1) as (self2 & E2 & Hrep2 & Hh2).
    exists self2. rewrite length_app, Nat.add_comm. simpl.
    rewrite E1, E2. rewrite !fmap_app, reverse_app. simpl.
    by rewrite <- app_assoc.
Qed.

Lemma call_add solve a b self :
  call branch_bound (a + b) solve self
  = let '(i1, e1, self1) := call branch_bound a solve self in
    match e1 with
    | Some e => (i1, Some e, self1)
    | None =>
        let '(i2, e2, self2) := call branch_bound b solve self1 in
        (i1 ++ i2, e2, self2)
    end.
Proof.
  revert self. induction a as [|a IH]; intros self; simpl.
  - by destruct (call branch_bound b solve self) as [[i2 e2] self2].
  - destruct (gen_one branch_bound solve self) as [[item|e] self1]; [|done].
    rewrite IH.
    destruct (call branch_bound a solve self1) as [[i1 [e1|]] self2]; [done|].
    by destruct (call branch_bound b solve self2) as [[i2 e2] self3].
Qed.

(** The pairs a dataset is built from: the solutions given, or none. *)
Lemma Dataset_init_holds ps (sols : option (list (option Sol))) rep :
  ps <> [] -> (forall ss, sols = Some ss -> length ss = length ps) ->
  exists d,
    Dataset_init ps sols rep = Ok d
    /\ repeat d = rep
    /\ dataset_holds d
         (zip ps (default ((fun _ => None) <$> seq 0 (length ps)) sols)).
Proof.
  intros Hne Hlen. destruct ps as [|p ps]; [done|].
  eexists. split; [reflexivity|]. split; [done|].
  unfold dataset_holds, add_problems. cbn [problems solutions fst snd].
  rewrite !extendleft_reverse, !app_nil_r.
  destruct sols as [ss|]; cbn [default from_option id].
  - specialize (Hlen ss eq_refl).
    rewrite fst_zip, snd_zip by lia. done.
  - rewrite fst_zip, snd_zip by (rewrite length_fmap, length_seq; lia). done.
Qed.

(** X16.  Without [repeat], a dataset built from a list of problems yields them
    from the last to the first, each once, with the solution stored for it
    (or, with [solve], the one branch and bound finds); once they are used
    up the generator ends with [ValueError]. *)
Theorem Dataset_yields_last_first ps sols solve (n : nat) :
  ps <> [] -> (forall ss, sols = Some ss -> length ss = length ps) ->
  let zs := zip ps (default ((fun _ => None) <$> seq 0 (length ps)) sols) in
  exists d,
    Dataset_init ps sols false = Ok d
    /\ (n <= length ps ->
        exists d',
          call branch_bound n solve d
          = (reverse (dataset_item branch_bound solve
                        <$> drop (length ps - n) zs), None, d')
          /\ problems d' = take (length ps - n) ps)
    /\ (length ps < n ->
        exists d',
          call branch_bound n solve d
          = (reverse (dataset_item branch_bound solve <$> zs),
             Some ValueError, d')
          /\ problems d' = []).
Proof.
  intros Hne Hlen zs.
  destruct (Dataset_init_holds ps sols false Hne Hlen)
    as (d & Hd & Hrep & Hh).
  fold zs in Hh. exists d. split; [done|].
  assert (length zs = length ps) as Hzs.
  { unfold zs. rewrite length_zip_with.
    destruct sols as [ss|]; cbn [default from_option id];
      [rewrite (Hlen ss eq_refl)|rewrite length_fmap, length_seq]; lia. }
  assert (zs.*1 = ps) as Hfst.
  { unfold zs. apply fst_zip.
    destruct sols as [ss|]; cbn [default from_option id];
      [rewrite (Hlen ss eq_refl)|rewrite length_fmap, length_seq]; lia. }
  split.
  - intros Hn.
    rewrite <- (take_drop (length ps - n) zs) in Hh.
    destruct (call_holds_once solve (drop (length ps - n) zs) d _ Hrep Hh)
      as (d' & E & _ & [Hp _]).
    rewrite length_drop, Hzs in E.
    replace (length ps - (length ps - n))%nat with n in E by lia.
    exists d'. split; [done|]. rewrite Hp, fmap_take. by rewrite Hfst.
  - intros Hn.
    replace zs with ([] ++ zs) in Hh by done.
    destruct (call_holds_once solve zs d [] Hrep Hh) as (d' & E & _ & [Hp _]).
    exists d'. split; [|done].
    replace n with (length zs + S (n - length zs - 1))%nat by lia.
    rewrite call_add, E. simpl. rewrite gen_one_empty by done.
    by rewrite app_nil_r.
Qed.

(** X17.  Under [repeat], one pass over a dataset built from a list of problems
    yields them from the last to the first and leaves them in the order they
    were given in, each with the solution that was yielded for it: after a
    pass with [solve] every problem has its solution stored. *)
Theorem Dataset_repeat_pass ps sols solve :
  ps <> [] -> (forall ss, sols = Some ss -> length ss = length ps) ->
  let zs := zip ps (default ((fun _ => None) <$> seq 0 (length ps)) sols) in
  exists d d1,
    Dataset_init ps sols true = Ok d
    /\ call branch_bound (length ps) solve d
       = (reverse (dataset_item branch_bound solve <$> zs), None, d1)
    /\ problems d1 = ps
    /\ dataset_holds d1 (dataset_stored branch_bound solve <$> zs)
    /\ (solve = true -> Forall (fun o => is_Some o) (solutions d1)).
Proof.
  intros Hne Hlen zs.
  destruct (Dataset_init_holds ps sols true Hne Hlen)
    as (d & Hd & Hrep & Hh).
  fold zs in Hh.
  assert (length zs = length ps /\ zs.*1 = ps) as [Hzs Hfst].
  { assert (length ps <= length
              (default ((fun _ : nat => @None Sol) <$> seq 0 (length ps)) sols)).
    { destruct sols as [ss|]; cbn [default from_option id];
        [rewrite (Hlen ss eq_refl)|rewrite length_fmap, length_seq]; lia. }
    unfold zs. split; [rewrite length_zip_with; lia|by apply fst_zip]. }
  replace zs with ([] ++ zs) in Hh by done.
  destruct (call_holds_repeat solve zs d [] Hrep Hh) as (d1 & E & _ & Hh1).
  rewrite app_nil_r in Hh1. rewrite Hzs in E.
  exists d, d1. split; [done|]. split; [done|].
  destruct Hh1 as [Hp1 Hs1]. split; [|split; [done|]].
  - rewrite Hp1, <- list_fmap_compose, <- Hfst. by apply list_fmap_ext.
  - intros ->. rewrite Hs1, <- list_fmap_compose.
    apply Forall_fmap, Forall_true. intros z. by eexists.
Qed.
End Dataset_facts.

Lemma Dataset_yields_last_first_witness :
  let zs := zip [unit_problem_1; unit_problem_2]
              (default ((fun _ => None) <$> seq 0 2)
                 (Some [None; Some 5%nat])) in
  exists d,
    scheduling_problems.Dataset_init [unit_problem_1; unit_problem_2]
      (Some [None; Some 5%nat]) false = Ok d
    /\ (1 <= 2 ->
        exists d',
          scheduling_problems.call count_tasks 1 true d
          = (reverse (dataset_item count_tasks true <$> drop (2 - 1) zs),
             None, d')
          /\ scheduling_problems.problems d' = take (2 - 1)
               [unit_problem_1; unit_problem_2])
    /\ (2 < 1 ->
        exists d',
          scheduling_problems.call count_tasks 1 true d
          = (reverse (dataset_item count_tasks true <$> zs),
             Some ValueError, d')
          /\ scheduling_problems.problems d' = []).
Proof.
  apply (Dataset_yields_last_first count_tasks
           [unit_problem_1; unit_problem_2] (Some [None; Some 5%nat]) true 1).
  - discriminate.
  - intros ss [= <-]. reflexivity.
Defined.

Lemma Dataset_repeat_pass_witness :
  let zs := zip [unit_problem_1; unit_problem_2]
              (default ((fun _ => None) <$> seq 0 2)
                 (Some [None; Some 5%nat])) in
  exists d d1,
    scheduling_problems.Dataset_init [unit_problem_1; unit_problem_2]
      (Some [None; Some 5%nat]) true = Ok d
    /\ scheduling_problems.call count_tasks 2 true d
       = (reverse (dataset_item count_tasks true <$> zs), None, d1)
    /\ scheduling_problems.problems d1 = [unit_problem_1; unit_problem_2]
    /\ dataset_holds d1 (dataset_stored count_tasks true <$> zs)
    /\ (true = true ->
        Forall (fun o => is_Some o) (scheduling_problems.solutions d1)).
Proof.
  apply (Dataset_repeat_pass count_tasks
           [unit_problem_1; unit_problem_2] (Some [None; Some 5%nat]) true).
  - discriminate.
  - intros ss [= <-]. reflexivity.
Defined.

Section Dataset_solver.
Import scheduling_problems.
Context {Task Sol : Type}.
Implicit Types (self : Dataset Task Sol)
  (zs : list (SchedulingProblem Task * option Sol))
  (bb : SchedulingProblem Task -> Sol).

Lemma gen_one_stored bb bb' self zs p s :
  dataset_holds self (zs ++ [(p, Some s)]) ->
  gen_one bb true self = gen_one bb' true self.
Proof.
  intros [Hp Hs].
  rewrite fmap_app in Hp. rewrite fmap_app in Hs. simpl in Hp, Hs.
  unfold gen_one, _gen_problem. rewrite Hp, length_app. simpl.
  replace (length zs.*1 + 1 =? 0)%nat with false
    by (symmetry; apply Nat.eqb_neq; lia).
  rewrite deque_pop_snoc. simpl. rewrite Hs, deque_pop_snoc. simpl.
  unfold _gen_solution. simpl. by destruct (repeat self).
Qed.

(** X18.  Where every problem of a dataset has its solution stored, what the
    generator yields with [solve], and the dataset it leaves, do not depend on
    the solver: stored solutions are returned as they are. *)
Theorem Dataset_stored_solutions_returned bb bb' (n : nat) self zs :
  dataset_holds self zs -> Forall (fun z => is_Some z.2) zs ->
  call bb n true self = call bb' n true self.
Proof.
  revert self zs. induction n as [|n IH]; intros self zs Hh Hall; [done|].
  simpl. destruct zs as [|z zs _] using rev_ind.
  - destruct Hh as [Hp _]. by rewrite !gen_one_empty.
  - apply Forall_app in Hall as [Hall Hz].
    rewrite Forall_singleton in Hz. destruct z as [p [s|]]; [|by apply is_Some_None in Hz].
    rewrite (gen_one_stored bb bb' self zs p s Hh).
    destruct (gen_one_holds bb' true self zs (p, Some s) Hh)
      as (self' & -> & _ & Hh').
    rewrite (IH self' _ Hh'); [done|].
    destruct (repeat self); [|done].
    apply Forall_cons. split; [by eexists|done].
Qed.
End Dataset_solver.

Lemma Dataset_stored_solutions_returned_witness :
  scheduling_problems.call count_tasks 3 true
    (scheduling_problems.mkDataset 1 1 [unit_problem_1; unit_problem_2]
       [Some 7%nat; Some 9%nat] true None)
  = scheduling_problems.call (fun _ => 0%nat) 3 true
      (scheduling_problems.mkDataset 1 1 [unit_problem_1; unit_problem_2]
         [Some 7%nat; Some 9%nat] true None).
Proof.
  apply (Dataset_stored_solutions_returned count_tasks (fun _ => 0%nat) 3 _
           [(unit_problem_1, Some 7%nat); (unit_problem_2, Some 9%nat)]).
  - split; reflexivity.
  - repeat constructor; by eexists.
Defined.

(** ** [Queue] *)

Section Queue_facts.
Import scheduling_problems.
Implicit Types (self : Queue) (ts : list ReluDrop).

Lemma pop_many_enough back : forall n front ca,
  pop_many (length back) (mkQueue n (front ++ back) ca)
  = (Ok (reverse back), mkQueue n front ca).
Proof.
  induction back as [|t back IH] using rev_ind; intros n front ca.
  - by rewrite app_nil_r.
  - rewrite length_app, Nat.add_comm. cbn [length Nat.add pop_many queue].
    rewrite app_assoc, deque_pop_snoc. cbn [q_n_tasks q_ch_avail].
    by rewrite IH, reverse_snoc.
Qed.

Lemma pop_many_short (k : nat) : forall n q ca,
  (length q < k)%nat ->
  pop_many k (mkQueue n q ca) = (Raise IndexError, mkQueue n [] ca).
Proof.
  induction k as [|k IH]; intros n q ca Hlen; [lia|].
  cbn [pop_many queue].
  destruct q as [|t q _] using rev_ind; [done|].
  rewrite deque_pop_snoc. cbn [q_n_tasks q_ch_avail].
  rewrite IH; [done|]. rewrite length_app in Hlen. simpl in Hlen. lia.
Qed.

(** X19.  [_gen_problem] takes the [n_tasks] tasks at the right end of the queue,
    the rightmost first; when the queue has fewer it raises [IndexError],
    from [pop], and the tasks it had are gone. *)
Theorem Queue_gen_problem_spec self :
  let n := q_n_tasks self in
  let len := length (queue self) in
  ((n <= len)%nat ->
     Queue_gen_problem self
     = (Ok (reverse (drop (len - n) (queue self)), q_ch_avail self),
        mkQueue n (take (len - n) (queue self)) (q_ch_avail self)))
  /\ ((len < n)%nat ->
     Queue_gen_problem self
     = (Raise IndexError, mkQueue n [] (q_ch_avail self))).
Proof.
  destruct self as [n q ca]. cbn [q_n_tasks queue q_ch_avail].
  unfold Queue_gen_problem. cbn [q_n_tasks]. split; intros Hlen.
  - rewrite <- (take_drop (length q - n) q) at 1.
    replace n with (length (drop (length q - n) q)) at 1
      by (rewrite length_drop; lia).
    by rewrite pop_many_enough.
  - by rewrite pop_many_short.
Qed.

Lemma Queue_gen_problem_spec_witness :
  Queue_gen_problem
    (Queue_init 2 [task None 1 0 1 1 1; task None 2 0 1 1 1;
                   task None 3 0 1 1 1] [Fin 0])
  = (Ok ([task None 3 0 1 1 1; task None 2 0 1 1 1], [Fin 0]),
     mkQueue 2 [task None 1 0 1 1 1] [Fin 0])
  /\ Queue_gen_problem (Queue_init 2 [task None 1 0 1 1 1] [Fin 0])
     = (Raise IndexError, mkQueue 2 [] [Fin 0]).
Proof.
  split.
  - apply (Queue_gen_problem_spec
             (Queue_init 2 [task None 1 0 1 1 1; task None 2 0 1 1 1;
                            task None 3 0 1 1 1] [Fin 0])).
    simpl. lia.
  - apply (Queue_gen_problem_spec
             (Queue_init 2 [task None 1 0 1 1 1] [Fin 0])).
    simpl. lia.
Defined.

Local Open Scope Q_scope.

Lemma py_index_in_range {A} (c : Z) (l : list A) :
  (0 <= c < Z.of_nat (length l))%Z -> py_index c l = Ok (Z.to_nat c).
Proof.
  intros Hc. unfold py_index.
  destruct (Z.ltb_spec c 0); [lia|].
  destruct (Z.leb_spec 0 c); [|lia].
  by destruct (Z.ltb_spec c (Z.of_nat (length l))); [|lia].
Qed.

Lemma pymax_Fin (a b : Q) :
  exists m, pymax (Fin a) (Fin b) = Fin m /\ a <= m /\ b <= m.
Proof.
  unfold pymax, flt. destruct (Qle_bool b a) eqn:E; simpl; qbool.
  - exists a. repeat split; lra.
  - exists b. repeat split; lra.
Qed.

Lemma update_finite ts : forall (te : list Q) (ce : list Z) self (ca : list Q),
  q_ch_avail self = Fin <$> ca ->
  length te = length ts -> length ce = length ts ->
  Forall (fun T => exists d, duration T = Fin d) ts ->
  Forall (fun c => (0 <= c < Z.of_nat (length ca))%Z) ce ->
  exists ca',
    update ts (Fin <$> te) ce self
    = (Ok tt, mkQueue (q_n_tasks self)
                (reverse (released ts (Fin <$> te)) ++ queue self)
                (Fin <$> ca'))
    /\ length ca' = length ca
    /\ (forall k a a', ca !! k = Some a -> ca' !! k = Some a' -> a <= a')
    /\ (forall j T t c d,
          ts !! j = Some T -> te !! j = Some t -> ce !! j = Some c ->
          duration T = Fin d ->
          exists a', ca' !! Z.to_nat c = Some a' /\ t + d <= a').
Proof.
  induction ts as [|T ts IH]; intros te ce self ca Hca Hte Hce Hfin Hin.
  - destruct te, ce; try done. exists ca. destruct self as [n q cs].
    simpl in *. subst cs. repeat split.
    + intros k a a' Hk Hk'. rewrite Hk in Hk'. injection Hk' as ->. lra.
    + intros j. by rewrite lookup_nil.
  - destruct te as [|t te], ce as [|c ce]; try done.
    apply Forall_cons in Hfin as [[d Hd] Hfin].
    apply Forall_cons in Hin as [Hc Hin].
    simpl in Hte, Hce.
    destruct T as [dT rT nT sT tdT ldT]. simpl in Hd. subst dT.
    cbn [update fmap list_fmap]. rewrite Hca.
    cbn [set_t_release snd fadd t_release duration _name _slope _t_drop
           _l_drop].
    unfold py_getitem, py_setitem.
    rewrite py_index_in_range by (by rewrite length_fmap).
    cbn [mbind result_bind].
    destruct (lookup_lt_is_Some_2 ca (Z.to_nat c)) as [a Ha]; [lia|].
    rewrite list_lookup_fmap, Ha. cbn [fmap option_fmap option_map].
    destruct (pymax_Fin a (t + d)) as (m & -> & Ham & Htm).
    replace (<[Z.to_nat c:=Fin m]> (Fin <$> ca))
      with (Fin <$> <[Z.to_nat c:=m]> ca) by (by rewrite list_fmap_insert).
    set (T' := {| duration := Fin d; t_release := Fin (t + d);
                  _name := nT; _slope := sT;
                  _t_drop := tdT; _l_drop := ldT |}).
    destruct (IH te ce
                (add_task T' (mkQueue (q_n_tasks self) (queue self)
                                (Fin <$> <[Z.to_nat c:=m]> ca)))
                (<[Z.to_nat c:=m]> ca))
      as (ca' & -> & Hlen & Hmono & Hend);
      [done|lia|lia|done|by rewrite length_insert|].
    exists ca'. cbn [add_task q_n_tasks queue appendleft].
    split.
    { f_equal. f_equal. unfold released. cbn [zip_with fmap list_fmap].
      cbn [set_t_release snd fadd duration _name _slope _t_drop _l_drop].
      fold T'. rewrite reverse_cons, <- app_assoc. done. }
    split; [by rewrite Hlen, length_insert|].
    assert (forall k x x', ca !! k = Some x ->
              <[Z.to_nat c:=m]> ca !! k = Some x' -> x <= x') as Hstep.
    { intros k x x' Hk Hk'.
      destruct (decide (k = Z.to_nat c)) as [->|Hne].
      - rewrite list_lookup_insert_eq in Hk' by lia.
        rewrite Ha in Hk. by simplify_eq.
      - rewrite list_lookup_insert_ne in Hk' by done.
        rewrite Hk in Hk'. injection Hk' as ->. lra. }
    split.
    + intros k x x'' Hk Hk''.
      destruct (lookup_lt_is_Some_2 (<[Z.to_nat c:=m]> ca) k) as [x' Hk'].
      { rewrite length_insert. by eapply lookup_lt_Some. }
      pose proof (Hstep k x x' Hk Hk').
      pose proof (Hmono k x' x'' Hk' Hk''). lra.
    + intros [|j] T0 t0 c0 d0 HT Ht Hc0 Hd0; simplify_eq/=.
      * destruct (lookup_lt_is_Some_2 ca' (Z.to_nat c0)) as [a' Ha'];
          [rewrite Hlen, length_insert; lia|].
        exists a'. split; [done|].
        assert (m <= a'); [|lra].
        apply (Hmono (Z.to_nat c0)); [|done].
        by rewrite list_lookup_insert_eq by lia.
      * by eapply Hend.
Qed.
(** X20.  [update] with finite times, on channels that exist: every task is put
    back at the left end of the queue with its release time set to the end
    of its execution, the last one leftmost; no channel availability
    decreases, and each channel is available no earlier than the end of any
    task that ran on it. *)
Theorem Queue_update_spec ts (te : list Q) (ce : list Z) self (ca : list Q) :
  q_ch_avail self = Fin <$> ca ->
  length te = length ts -> length ce = length ts ->
  Forall (fun T => exists d, duration T = Fin d) ts ->
  Forall (fun c => (0 <= c < Z.of_nat (length ca))%Z) ce ->
  exists ca',
    update ts (Fin <$> te) ce self
    = (Ok tt, mkQueue (q_n_tasks self)
                (reverse (released ts (Fin <$> te)) ++ queue self)
                (Fin <$> ca'))
    /\ length ca' = length ca
    /\ (forall k a a', ca !! k = Some a -> ca' !! k = Some a' -> a <= a')
    /\ (forall j T t c d,
          ts !! j = Some T -> te !! j = Some t -> ce !! j = Some c ->
          duration T = Fin d ->
          exists a', ca' !! Z.to_nat c = Some a' /\ t + d <= a').
Proof. apply update_finite. Qed.

Lemma Queue_update_spec_witness :
  exists ca',
    update [task None 2 0 1 1 1; task None 3 0 1 1 1] (Fin <$> [5; 0])
      [0; 0]%Z (mkQueue 2 [] [Fin 1])
    = (Ok tt, mkQueue 2
                (reverse (released [task None 2 0 1 1 1; task None 3 0 1 1 1]
                            (Fin <$> [5; 0])) ++ [])
                (Fin <$> ca'))
    /\ length ca' = length [1]
    /\ (forall k a a', [1] !! k = Some a -> ca' !! k = Some a' -> a <= a')
    /\ (forall j T t c d,
          [task None 2 0 1 1 1; task None 3 0 1 1 1] !! j = Some T ->
          [5; 0] !! j = Some t -> [0; 0]%Z !! j = Some c ->
          duration T = Fin d ->
          exists a', ca' !! Z.to_nat c = Some a' /\ t + d <= a').
Proof.
  apply (Queue_update_spec [task None 2 0 1 1 1; task None 3 0 1 1 1]
           [5; 0] [0; 0]%Z (mkQueue 2 [] [Fin 1]) [1]).
  - reflexivity.
  - reflexivity.
  - reflexivity.
  - repeat constructor; by eexists.
  - repeat constructor; simpl; lia.
Defined.

(** X21.  A problem drawn and then handed to [update] with its schedule: the queue
    is as long as before, with the tasks that were scheduled at its left
    end, so that all the tasks that were waiting are drawn before any of
    them comes up again. *)
Theorem Queue_serves_in_turn self (te : list Q) (ce : list Z) (ca : list Q) :
  let n := q_n_tasks self in
  let len := length (queue self) in
  let ts := reverse (drop (len - n) (queue self)) in
  (n <= len)%nat -> q_ch_avail self = Fin <$> ca ->
  length te = n -> length ce = n ->
  Forall (fun T => exists d, duration T = Fin d) (queue self) ->
  Forall (fun c => (0 <= c < Z.of_nat (length ca))%Z) ce ->
  exists self1 self2,
    Queue_gen_problem self = (Ok (ts, q_ch_avail self), self1)
    /\ update ts (Fin <$> te) ce self1 = (Ok tt, self2)
    /\ queue self2
       = reverse (released ts (Fin <$> te)) ++ take (len - n) (queue self)
    /\ length (queue self2) = len.
Proof.
  intros n len ts Hn Hca Hte Hce Hfin Hin.
  assert (length ts = n) as Hts.
  { unfold ts. rewrite length_reverse, length_drop. lia. }
  destruct self as [n0 q cs]. cbn [q_n_tasks queue q_ch_avail] in *.
  subst cs n len.
  destruct (update_finite ts te ce
              (mkQueue n0 (take (length q - n0) q) (Fin <$> ca)) ca)
    as (ca' & E & _); [done|lia|lia| |done|].
  { unfold ts. apply Forall_reverse, Forall_drop. done. }
  cbn [q_n_tasks queue] in E.
  eexists. eexists. split.
  { unfold Queue_gen_problem. cbn [q_n_tasks].
    rewrite <- (take_drop (length q - n0) q) at 1.
    replace n0 with (length (drop (length q - n0) q)) at 1
      by (rewrite length_drop; lia).
    rewrite pop_many_enough. reflexivity. }
  split; [exact E|]. cbn [queue]. split; [done|].
  rewrite length_app, length_reverse, length_take.
  unfold released. rewrite length_zip_with, length_fmap. lia.
Qed.

Lemma Queue_serves_in_turn_witness :
  let self := Queue_init 2 [task None 1 0 1 1 1; task None 2 0 1 1 1;
                            task None 3 0 1 1 1] [Fin 0] in
  let ts := reverse (drop (3 - 2) (queue self)) in
  exists self1 self2,
    Queue_gen_problem self = (Ok (ts, q_ch_avail self), self1)
    /\ update ts (Fin <$> [0; 3]) [0; 0]%Z self1 = (Ok tt, self2)
    /\ queue self2
       = reverse (released ts (Fin <$> [0; 3])) ++ take (3 - 2) (queue self)
    /\ length (queue self2) = 3%nat.
Proof.
  apply (Queue_serves_in_turn
           (Queue_init 2 [task None 1 0 1 1 1; task None 2 0 1 1 1;
                          task None 3 0 1 1 1] [Fin 0])
           [0; 3] [0; 0]%Z [0]).
  - simpl. lia.
  - reflexivity.
  - reflexivity.
  - reflexivity.
  - repeat constructor; by eexists.
  - repeat constructor; simpl; lia.
Defined.
End Queue_facts.

(** ** The sorted indices of [Index] *)

Section sorted_index_facts.
Import environments environments_Index scheduling_problems.
Implicit Types (l idx inv seq seq_rem : list Z) (n m k : nat).

Lemma list_comp_Ok {A B} (f : A -> result B) (g : A -> B) (l : list A) :
  (forall x, x ∈ l -> f x = Ok (g x)) -> list_comp f l = Ok (g <$> l).
Proof.
  induction l as [|x l IH]; intros H; [done|].
  simpl. rewrite (H x) by left. simpl.
  rewrite IH by (intros y Hy; apply H; by right). done.
Qed.

Lemma list_comp_Raise {A B} (f : A -> result B) (l : list A) x e :
  x ∈ l -> f x = Raise e -> (forall y, y ∈ l -> f y = Raise e \/ exists b, f y = Ok b) ->
  list_comp f l = Raise e.
Proof.
  induction l as [|y l IH]; intros Hx Hf Hall; [by apply elem_of_nil in Hx|].
  simpl. destruct (Hall y) as [E|[b E]]; [by left|by rewrite E|].
  rewrite E. simpl. apply elem_of_cons in Hx as [->|Hx]; [congruence|].
  rewrite IH; [done..|]. intros z Hz. apply Hall. by right.
Qed.

Lemma elem_of_range n x : x ∈ range (Z.of_nat n) <-> exists m, x = Z.of_nat m /\ (m < n)%nat.
Proof.
  rewrite range_of_nat, list_elem_of_fmap. split.
  - intros (m & -> & Hm). apply elem_of_seq in Hm. exists m. split; [done|lia].
  - intros (m & -> & Hm). exists m. split; [done|]. apply elem_of_seq. lia.
Qed.


Lemma index_of_lookup idx k x :
  NoDup idx -> idx !! k = Some x -> index_of idx x = Z.of_nat k.
Proof. intros Hnd Hk. unfold index_of. by rewrite (list_index_lookup idx k x). Qed.

Lemma sorted_index_inv_Ok n idx :
  idx ≡ₚ range (Z.of_nat n) ->
  sorted_index_inv n idx = Ok (index_of idx <$> range (Z.of_nat n)).
Proof.
  intros Hp. apply list_comp_Ok. intros x Hx.
  assert (NoDup idx) as Hnd by (rewrite Hp; apply NoDup_range).
  rewrite <- Hp in Hx. apply list_elem_of_lookup in Hx as [k Hk].
  rewrite (list_index_lookup idx k x) by done.
  by rewrite (index_of_lookup idx k x).
Qed.

Lemma sorted_index_inv_lookup n idx k m :
  idx ≡ₚ range (Z.of_nat n) ->
  idx !! k = Some (Z.of_nat m)
  <-> (index_of idx <$> range (Z.of_nat n)) !! m = Some (Z.of_nat k).
Proof.
  intros Hp.
  assert (NoDup idx) as Hnd by (rewrite Hp; apply NoDup_range).
  rewrite list_lookup_fmap. split.
  - intros Hk.
    assert (Z.of_nat m ∈ range (Z.of_nat n)) as Hm.
    { rewrite <- Hp. by eapply list_elem_of_lookup_2. }
    apply elem_of_range in Hm as (m' & Hm' & Hlt).
    apply Nat2Z.inj in Hm' as <-.
    rewrite range_lookup by done. simpl.
    by rewrite (index_of_lookup idx k (Z.of_nat m)).
  - intros Hm.
    destruct (range (Z.of_nat n) !! m) as [x|] eqn:Hx; [|done].
    simpl in Hm. injection Hm as Hm.
    assert (m < n)%nat as Hlt.
    { apply lookup_lt_Some in Hx. by rewrite length_range in Hx. }
    rewrite range_lookup in Hx by done. injection Hx as <-.
    assert (Z.of_nat m ∈ idx) as Hin.
    { rewrite Hp. apply elem_of_range. by exists m. }
    apply list_elem_of_lookup in Hin as [k' Hk'].
    rewrite (index_of_lookup idx k' (Z.of_nat m)) in Hm by done.
    apply Nat2Z.inj in Hm as ->. done.
Qed.

Lemma sorted_index_inv_Permutation n idx :
  idx ≡ₚ range (Z.of_nat n) ->
  index_of idx <$> range (Z.of_nat n) ≡ₚ range (Z.of_nat n).
Proof.
  intros Hp.
  assert (NoDup idx) as Hnd by (rewrite Hp; apply NoDup_range).
  assert (length idx = n) as Hlen by (by rewrite Hp, length_range).
  apply submseteq_length_Permutation; [|by rewrite length_fmap].
  apply NoDup_submseteq.
  - apply NoDup_fmap_2_strong; [|apply NoDup_range].
    intros x y Hx Hy E.
    rewrite <- Hp in Hx, Hy.
    apply list_elem_of_lookup in Hx as [k Hk], Hy as [k' Hk'].
    rewrite (index_of_lookup idx k x), (index_of_lookup idx k' y) in E by done.
    apply Nat2Z.inj in E as ->. congruence.
  - intros j Hj. apply list_elem_of_fmap in Hj as (x & -> & Hx).
    rewrite <- Hp in Hx. apply list_elem_of_lookup in Hx as [k Hk].
    rewrite (index_of_lookup idx k x) by done.
    apply elem_of_range. exists k. split; [done|].
    apply lookup_lt_Some in Hk. lia.
Qed.

(** X22.  [sorted_index_inv] is the inverse of the permutation
    [sorted_index]: when [sorted_index] holds each of [0 .. n_tasks - 1]
    once, so does [sorted_index_inv], and the task [m] stands at position
    [k] of [sorted_index] exactly when [sorted_index_inv[m]] is [k]. *)
Theorem sorted_index_inv_inverse n idx :
  idx ≡ₚ range (Z.of_nat n) ->
  exists inv,
    sorted_index_inv n idx = Ok inv
    /\ inv ≡ₚ range (Z.of_nat n)
    /\ forall k m, idx !! k = Some (Z.of_nat m) <-> inv !! m = Some (Z.of_nat k).
Proof.
  intros Hp. exists (index_of idx <$> range (Z.of_nat n)).
  split; [by apply sorted_index_inv_Ok|].
  split; [by apply sorted_index_inv_Permutation|].
  intros k m. by apply sorted_index_inv_lookup.
Qed.

(** X23.  A task below [n_tasks] that [sorted_index] does not hold makes
    [sorted_index_inv] raise [ValueError]. *)
Theorem sorted_index_inv_ValueError n idx m :
  (m < n)%nat -> Z.of_nat m ∉ idx ->
  sorted_index_inv n idx = Raise ValueError.
Proof.
  intros Hm Hnot. unfold sorted_index_inv.
  apply (list_comp_Raise _ _ (Z.of_nat m)).
  - apply elem_of_range. by exists m.
  - destruct (list_index (Z.of_nat m) idx) as [j|e] eqn:E.
    + apply list_index_Ok in E as [_ E]. apply list_elem_of_lookup_2 in E. done.
    + by rewrite (list_index_Raise _ _ _ E).
  - intros y _. destruct (list_index y idx) as [j|e] eqn:E; [right; by eexists|].
    left. by rewrite (list_index_Raise _ _ _ E).
Qed.

Lemma py_getitem_in_range {A} (c : Z) (l : list A) x :
  (0 <= c)%Z -> l !! Z.to_nat c = Some x -> py_getitem c l = Ok x.
Proof.
  intros Hc Hx. unfold py_getitem.
  rewrite py_index_in_range; [simpl; by rewrite Hx|].
  apply lookup_lt_Some in Hx. lia.
Qed.

Lemma take_each_inv n idx l :
  idx ≡ₚ range (Z.of_nat n) -> (forall x, x ∈ l -> x ∈ range (Z.of_nat n)) ->
  take_each (index_of idx <$> range (Z.of_nat n)) l = Ok (index_of idx <$> l).
Proof.
  intros Hp Hl. apply list_comp_Ok. intros x Hx.
  apply Hl, elem_of_range in Hx as (m & -> & Hm).
  apply py_getitem_in_range; [lia|].
  rewrite Nat2Z.id, list_lookup_fmap, range_lookup by done. done.
Qed.

Lemma index_of_inj n idx x y :
  idx ≡ₚ range (Z.of_nat n) -> x ∈ idx -> y ∈ idx ->
  index_of idx x = index_of idx y -> x = y.
Proof.
  intros Hp Hx Hy E.
  assert (NoDup idx) as Hnd by (rewrite Hp; apply NoDup_range).
  apply list_elem_of_lookup in Hx as [k Hk], Hy as [k' Hk'].
  rewrite (index_of_lookup idx k x), (index_of_lookup idx k' y) in E by done.
  apply Nat2Z.inj in E as ->. congruence.
Qed.

(** X24.  The mask that [Index._update_spaces] gives the action space is
    the entry [seq] of the observation, which [infer_valid_mask] returns:
    an action is masked exactly when the task it stands for has been
    scheduled. *)
Theorem mask_is_obs_seq n idx seq seq_rem :
  idx ≡ₚ range (Z.of_nat n) -> seq ++ seq_rem ≡ₚ range (Z.of_nat n) ->
  _update_spaces_mask n idx seq_rem
  = Ok ((fun b => bool_decide (b = 1%Z))
          <$> infer_valid_mask (_obs_seq seq idx)).
Proof.
  intros Hp Hpart.
  assert (NoDup idx) as Hnd by (rewrite Hp; apply NoDup_range).
  assert (NoDup (seq ++ seq_rem)) as Hnd' by (rewrite Hpart; apply NoDup_range).
  apply NoDup_app in Hnd' as (_ & Hdisj & _).
  unfold _update_spaces_mask, infer_valid_mask, _obs_seq.
  rewrite (sorted_index_inv_Ok n idx Hp). simpl.
  rewrite (take_each_inv n idx seq_rem Hp).
  2:{ intros x Hx. rewrite <- Hpart. apply elem_of_app. by right. }
  simpl. f_equal. rewrite <- list_fmap_compose.
  assert (length idx = n) as Hlen by (by rewrite Hp, length_range).
  apply list_eq. intros k. rewrite !list_lookup_fmap.
  destruct (idx !! k) as [x|] eqn:Hk.
  - assert (k < n)%nat as Hlt by (apply lookup_lt_Some in Hk; lia).
    rewrite range_lookup by done. simpl. f_equal.
    assert (x ∈ idx) as Hx by (by eapply list_elem_of_lookup_2).
    assert (x ∈ seq \/ x ∈ seq_rem) as Hor.
    { apply elem_of_app. rewrite Hpart, <- Hp. done. }
    assert (Z.of_nat k ∈ index_of idx <$> seq_rem <-> x ∈ seq_rem) as Hiff.
    { split.
      - intros Hin. apply list_elem_of_fmap in Hin as (y & E & Hy).
        rewrite <- (index_of_lookup idx k x Hnd Hk) in E.
        assert (y ∈ idx) as Hy'.
        { rewrite Hp, <- Hpart. apply elem_of_app. by right. }
        by rewrite (index_of_inj n idx x y Hp Hx Hy' E).
      - intros Hin. apply list_elem_of_fmap. exists x.
        by rewrite (index_of_lookup idx k x). }
    repeat case_bool_decide; simpl; try done.
    + exfalso. apply (Hdisj x); tauto.
    + exfalso. tauto.
  - assert (n <= k)%nat as Hge by (apply lookup_ge_None in Hk; lia).
    rewrite (proj2 (lookup_ge_None _ _)) by (rewrite length_range; lia).
    done.
Qed.

(** X25.  The optimal action is the optimal task encoded: [step] decodes
    what [opt_action] returns to the next task of the optimal sequence. *)
Theorem opt_action_decodes n idx seq_opt seq (t : nat) :
  idx ≡ₚ range (Z.of_nat n) ->
  seq_opt !! length seq = Some (Z.of_nat t) -> (t < n)%nat ->
  exists a,
    opt_action n idx (Some seq_opt) seq = Ok a
    /\ step_decode idx a = Ok (Z.of_nat t).
Proof.
  intros Hp Ht Hlt.
  assert (NoDup idx) as Hnd by (rewrite Hp; apply NoDup_range).
  assert (Z.of_nat t ∈ idx) as Hin.
  { rewrite Hp. apply elem_of_range. by exists t. }
  apply list_elem_of_lookup in Hin as [k Hk].
  exists (Z.of_nat k). unfold opt_action, step_decode.
  rewrite (py_getitem_in_range _ _ (Z.of_nat t));
    [|lia|by rewrite Nat2Z.id].
  simpl. rewrite (sorted_index_inv_Ok n idx Hp). simpl. split.
  - apply py_getitem_in_range; [lia|].
    rewrite Nat2Z.id, list_lookup_fmap, range_lookup by done. simpl.
    by rewrite (index_of_lookup idx k (Z.of_nat t)).
  - apply py_getitem_in_range; [lia|]. by rewrite Nat2Z.id.
Qed.
End sorted_index_facts.

Lemma sorted_index_inv_inverse_witness :
  exists inv,
    environments_Index.sorted_index_inv 3 [2; 0; 1]%Z = Ok inv
    /\ inv ≡ₚ environments.range (Z.of_nat 3)
    /\ forall k m, [2; 0; 1]%Z !! k = Some (Z.of_nat m)
                   <-> inv !! m = Some (Z.of_nat k).
Proof.
  apply (sorted_index_inv_inverse 3 [2; 0; 1]%Z). exact permutation_201.
Defined.

Lemma sorted_index_inv_ValueError_witness :
  environments_Index.sorted_index_inv 3 [2; 0; 0]%Z = Raise ValueError.
Proof.
  apply (sorted_index_inv_ValueError 3 [2; 0; 0]%Z 1).
  - lia.
  - apply (bool_decide_unpack _). vm_compute. exact I.
Defined.

Lemma mask_is_obs_seq_witness :
  environments_Index._update_spaces_mask 3 [2; 0; 1]%Z [0; 1]%Z
  = Ok ((fun b => bool_decide (b = 1%Z))
          <$> environments_Index.infer_valid_mask
                (environments_Index._obs_seq [2]%Z [2; 0; 1]%Z)).
Proof.
  apply (mask_is_obs_seq 3 [2; 0; 1]%Z [2]%Z [0; 1]%Z).
  - exact permutation_201.
  - exact permutation_201.
Defined.

Lemma opt_action_decodes_witness :
  exists a,
    environments_Index.opt_action 3 [2; 0; 1]%Z (Some [1; 2; 0]%Z) [1]%Z = Ok a
    /\ environments_Index.step_decode [2; 0; 1]%Z a = Ok (Z.of_nat 2).
Proof.
  apply (opt_action_decodes 3 [2; 0; 1]%Z [1; 2; 0]%Z [1]%Z 2).
  - exact permutation_201.
  - reflexivity.
  - lia.
Defined.
